(** * Lead import pipeline of [ImportLeadsDialog.tsx]

    A shallow embedding of the import dialog's logic
    (src/components/leads/ImportLeadsDialog.tsx): the vocabulary tables,
    the per-row normalisation and the deduplication of [processLeads], the
    file handler [handleFileChange] and [resetState], with the component's
    [useState] cells gathered in one record that every handler transforms. *)

From Stdlib Require Import ZArith NArith Ascii String Sorted.
From stdpp Require Import base option list strings gmap.

Local Open Scope string_scope.
Local Open Scope list_scope.

(** ** JavaScript values

    Numbers are IEEE doubles and their conversions to and from text
    ([Number(s)], [String(n)]) are the engine's; they are taken as an
    interface together with the few facts of the language that the
    handlers rely on.  Everything else is concrete. *)

Class JsRuntime := {
  number : Type;
  num_zero : number;                       (* the literal 0 *)
  num_truthy : number → bool;              (* ToBoolean: false at 0, -0, NaN *)
  num_is_nan : number → bool;
  num_to_string : number → string;         (* String(n) *)
  string_to_number : string → number;      (* Number(s) *)
  builtin_to_string : string → string;     (* String(Object.prototype[p]) *)
  num_truthy_zero : num_truthy num_zero = false;
  num_truthy_nan : ∀ n, num_is_nan n = true → num_truthy n = false;
  num_to_string_nonempty : ∀ n, num_to_string n ≠ "";
  builtin_to_string_nonempty : ∀ p, builtin_to_string p ≠ "";
}.

(** A small instance, integers and NaN, on which the definitions run. *)
Module IntRuntime.

Definition digit (d : N) : ascii := ascii_of_N (48 + d).

Fixpoint dec_go (fuel : nat) (n : N) (acc : string) : string :=
  let acc' := String (digit (n mod 10)) acc in
  match fuel with
  | O => acc'
  | S f => if (n / 10 =? 0)%N then acc' else dec_go f (n / 10) acc'
  end.

Definition dec (n : N) : string := dec_go (N.size_nat n) n "".

Definition is_digit (a : ascii) : bool :=
  let c := N_of_ascii a in ((48 <=? c) && (c <=? 57))%N.

Fixpoint parse_digits (s : string) (acc : N) : option N :=
  match s with
  | EmptyString => Some acc
  | String a r =>
      if is_digit a then parse_digits r (10 * acc + (N_of_ascii a - 48))%N
      else None
  end.

Definition to_string (n : option Z) : string :=
  match n with
  | None => "NaN"
  | Some z => (if (z <? 0)%Z then "-" else "") +:+ dec (Z.abs_N z)
  end.

Definition of_string (s : string) : option Z :=
  match s with
  | String "-" (String a r) => Z.opp <$> (Z.of_N <$> parse_digits (String a r) 0)
  | _ => Z.of_N <$> parse_digits s 0
  end.

Definition truthy (n : option Z) : bool :=
  match n with Some z => negb (z =? 0)%Z | None => false end.

Definition is_nan (n : option Z) : bool :=
  match n with Some _ => false | None => true end.

Definition builtin (p : string) : string :=
  if String.eqb p "__proto__" then "[object Object]"
  else "function " +:+ p +:+ "() { [native code] }".

Definition runtime : JsRuntime.
Proof.
  refine {| number := option Z;
            num_zero := Some 0%Z;
            num_truthy := truthy;
            num_is_nan := is_nan;
            num_to_string := to_string;
            string_to_number := of_string;
            builtin_to_string := builtin |}.
  - reflexivity.
  - by intros [z|].
  - intros [z|]; simpl; [|done].
    assert (∀ fuel n acc, dec_go fuel n acc ≠ "") as Hgo.
    { induction fuel as [|f IH]; intros n acc; simpl; [done|].
      destruct (n / 10 =? 0)%N; [done | apply IH]. }
    destruct (z <? 0)%Z; simpl; [done | apply Hgo].
  - intros p. unfold builtin. by destruct (String.eqb p "__proto__").
Defined.

End IntRuntime.

Section ImportLeads.
Context `{JsRuntime}.

(** A value read from a row or from a table: [undefined], a string, a
    number, or a member inherited from [Object.prototype] (named by its
    property key), which a property read reaches when the object has no own
    property of that name. *)
Inductive jsval :=
  | JUndef
  | JStr (s : string)
  | JNum (n : number)
  | JProto (p : string).

Definition Object_prototype_keys : list string :=
  [ "constructor"; "__defineGetter__"; "__defineSetter__"; "hasOwnProperty";
    "__lookupGetter__"; "__lookupSetter__"; "isPrototypeOf";
    "propertyIsEnumerable"; "toString"; "valueOf"; "__proto__";
    "toLocaleString" ].

(** [o[k]] on a plain object. *)
Definition get_prop (o : gmap string jsval) (k : string) : jsval :=
  match o !! k with
  | Some v => v
  | None => if bool_decide (k ∈ Object_prototype_keys) then JProto k else JUndef
  end.

(** [!v] is [negb (js_truthy v)]. *)
Definition js_truthy (v : jsval) : bool :=
  match v with
  | JUndef => false
  | JStr s => negb (String.eqb s "")
  | JNum n => num_truthy n
  | JProto _ => true
  end.

(** [String(v)]. *)
Definition js_String (v : jsval) : string :=
  match v with
  | JUndef => "undefined"
  | JStr s => s
  | JNum n => num_to_string n
  | JProto p => builtin_to_string p
  end.

(** [Number(v)]. *)
Definition js_Number (v : jsval) : number :=
  match v with
  | JUndef => string_to_number "undefined"
  | JStr s => string_to_number s
  | JNum n => n
  | JProto p => string_to_number (builtin_to_string p)
  end.

(** [a || b]. *)
Definition js_or (a b : jsval) : jsval := if js_truthy a then a else b.

(** [s.toLowerCase()], as the ASCII case mapping; bytes outside A-Z stay.
    The result is only ever used as a key into the three vocabulary tables.
    Their own and inherited keys are ASCII and contain no letter k, the one
    ASCII letter that is also the lower case of a character outside ASCII
    (U+212A), so every lookup agrees with the engine's. *)
Definition lower_ascii (a : ascii) : ascii :=
  let c := N_of_ascii a in
  if ((65 <=? c) && (c <=? 90))%N then ascii_of_N (c + 32) else a.

Fixpoint toLowerCase (s : string) : string :=
  match s with
  | EmptyString => EmptyString
  | String a r => String (lower_ascii a) (toLowerCase r)
  end.

(** [s.replace(/\s/g, "")] on UTF-8 text.  [\s] is TAB, LF, VT, FF, CR,
    SPACE, U+00A0, U+1680, U+2000..U+200A, U+2028, U+2029, U+202F, U+205F,
    U+3000 and U+FEFF. *)
Definition ws1 (a : N) : bool :=
  ((9 <=? a) && (a <=? 13) || (a =? 32))%N.

Definition ws2 (a b : N) : bool := ((a =? 194) && (b =? 160))%N.

Definition ws3 (a b c : N) : bool :=
  ((a =? 225) && (b =? 154) && (c =? 128)
   || (a =? 226) && (b =? 128)
      && ((128 <=? c) && (c <=? 138) || (c =? 168) || (c =? 169) || (c =? 175))
   || (a =? 226) && (b =? 129) && (c =? 159)
   || (a =? 227) && (b =? 128) && (c =? 128)
   || (a =? 239) && (b =? 187) && (c =? 191))%N.

Fixpoint strip_whitespace (s : string) : string :=
  match s with
  | EmptyString => EmptyString
  | String a r1 =>
      if ws1 (N_of_ascii a) then strip_whitespace r1
      else
        match r1 with
        | EmptyString => String a EmptyString
        | String b r2 =>
            if ws2 (N_of_ascii a) (N_of_ascii b) then strip_whitespace r2
            else
              match r2 with
              | EmptyString => String a (strip_whitespace r1)
              | String c r3 =>
                  if ws3 (N_of_ascii a) (N_of_ascii b) (N_of_ascii c)
                  then strip_whitespace r3
                  else String a (strip_whitespace r1)
              end
        end
  end.

(** ** Schema and vocabulary tables *)

Record Field := { key : string; label : string; required : bool }.

Definition leadFields : list Field :=
  [ {| key := "name"; label := "Name"; required := true |};
    {| key := "phone"; label := "Phone"; required := true |};
    {| key := "email"; label := "Email"; required := false |};
    {| key := "city"; label := "City"; required := false |};
    {| key := "value"; label := "Lead Value"; required := false |};
    {| key := "source"; label := "Source"; required := false |};
    {| key := "stage"; label := "Stage"; required := false |};
    {| key := "priority"; label := "Priority"; required := false |};
    {| key := "status"; label := "Status"; required := false |};
    {| key := "projectName"; label := "Project Name"; required := false |};
    {| key := "notes"; label := "Notes"; required := false |} ].

Definition sourceMapping : gmap string jsval :=
  list_to_map
    [ ("website", JStr "website"); ("google", JStr "google_ads");
      ("referral", JStr "referral"); ("social", JStr "social_media");
      ("other", JStr "other") ].

Definition stageMapping : gmap string jsval :=
  list_to_map
    [ ("new", JStr "new"); ("qualified", JStr "qualified");
      ("proposal", JStr "proposal"); ("negotiation", JStr "negotiation");
      ("won", JStr "won"); ("lost", JStr "lost") ].

Definition priorityMapping : gmap string jsval :=
  list_to_map [ ("hot", JStr "hot"); ("warm", JStr "warm"); ("cold", JStr "cold") ].

(** ** Leads *)

(** The identifier [`import_${Date.now()}_${index}`], kept as its two
    interpolated parts. *)
Record LeadId := { id_time : Z; id_index : nat }.

(** [Partial<Lead>] as [processLeads] fills it.  The two timestamps are the
    clock readings whose ISO rendering the code stores. *)
Record Lead := mkLead {
  id : LeadId;
  createdAt : Z;
  updatedAt : Z;
  status : string;
  stage : jsval;
  priority : jsval;
  category : string;
  subcategory : string;
  name : option string;
  phone : option string;
  email : option string;
  city : option string;
  value : option number;
  source : option jsval;
  projectName : option string;
  notes : option string;
}.

Definition set_stage (v : jsval) (l : Lead) : Lead :=
  let 'mkLead a b c d _ f g h i j k m n o p q := l in
  mkLead a b c d v f g h i j k m n o p q.
Definition set_priority (v : jsval) (l : Lead) : Lead :=
  let 'mkLead a b c d e _ g h i j k m n o p q := l in
  mkLead a b c d e v g h i j k m n o p q.
Definition set_name (v : string) (l : Lead) : Lead :=
  let 'mkLead a b c d e f g h _ j k m n o p q := l in
  mkLead a b c d e f g h (Some v) j k m n o p q.
Definition set_phone (v : string) (l : Lead) : Lead :=
  let 'mkLead a b c d e f g h i _ k m n o p q := l in
  mkLead a b c d e f g h i (Some v) k m n o p q.
Definition set_email (v : string) (l : Lead) : Lead :=
  let 'mkLead a b c d e f g h i j _ m n o p q := l in
  mkLead a b c d e f g h i j (Some v) m n o p q.
Definition set_city (v : string) (l : Lead) : Lead :=
  let 'mkLead a b c d e f g h i j k _ n o p q := l in
  mkLead a b c d e f g h i j k (Some v) n o p q.
Definition set_value (v : number) (l : Lead) : Lead :=
  let 'mkLead a b c d e f g h i j k m _ o p q := l in
  mkLead a b c d e f g h i j k m (Some v) o p q.
Definition set_source (v : jsval) (l : Lead) : Lead :=
  let 'mkLead a b c d e f g h i j k m n _ p q := l in
  mkLead a b c d e f g h i j k m n (Some v) p q.
Definition set_projectName (v : string) (l : Lead) : Lead :=
  let 'mkLead a b c d e f g h i j k m n o _ q := l in
  mkLead a b c d e f g h i j k m n o (Some v) q.
Definition set_notes (v : string) (l : Lead) : Lead :=
  let 'mkLead a b c d e f g h i j k m n o p _ := l in
  mkLead a b c d e f g h i j k m n o p (Some v).

(** ** [processLeads] *)

(** The object literal a row starts from.  [clock k] is the result of the
    [k]-th reading of the wall clock during the call; every row makes three
    readings, in the order of the literal's properties. *)
Definition new_lead (clock : nat → Z) (index : nat) : Lead :=
  {| id := {| id_time := clock (3 * index); id_index := index |};
     createdAt := clock (3 * index + 1);
     updatedAt := clock (3 * index + 2);
     status := "active";
     stage := JStr "new";
     priority := JStr "warm";
     category := "property";
     subcategory := "india_property";
     name := None; phone := None; email := None; city := None;
     value := None; source := None; projectName := None; notes := None |}.

(** The body of the inner [forEach] for one [[key, col]] entry. *)
Definition apply_field (row : gmap string jsval) (lead : Lead) (kc : string * string) : Lead :=
  let '(key, col) := kc in
  let val := get_prop row col in
  if negb (js_truthy val) then lead
  else if String.eqb key "name" then set_name (js_String val) lead
  else if String.eqb key "phone" then set_phone (js_String val) lead
  else if String.eqb key "email" then set_email (js_String val) lead
  else if String.eqb key "city" then set_city (js_String val) lead
  else if String.eqb key "value" then
    set_value (let n := js_Number val in if num_truthy n then n else num_zero) lead
  else if String.eqb key "source" then
    set_source (js_or (get_prop sourceMapping (toLowerCase (js_String val))) (JStr "other")) lead
  else if String.eqb key "stage" then
    set_stage (js_or (get_prop stageMapping (toLowerCase (js_String val))) (JStr "new")) lead
  else if String.eqb key "priority" then
    set_priority (js_or (get_prop priorityMapping (toLowerCase (js_String val))) (JStr "warm")) lead
  else if String.eqb key "projectName" then set_projectName (js_String val) lead
  else if String.eqb key "notes" then set_notes (js_String val) lead
  else lead.

(** [Object.entries(columnMapping).forEach(...)] over the entries in some
    order. *)
Definition apply_entries (row : gmap string jsval) (lead : Lead)
    (entries : list (string * string)) : Lead :=
  foldl (apply_field row) lead entries.

(** The lead of one row after the field loop.  [map_to_list] stands for
    [Object.entries]: the keys of an object are distinct, and then the
    order of the entries does not matter (lemma [apply_entries_Permutation]). *)
Definition build_lead (clock : nat → Z) (columnMapping : gmap string string)
    (index : nat) (row : gmap string jsval) : Lead :=
  apply_entries row (new_lead clock index) (map_to_list columnMapping).

(** [!s] for an optional string property. *)
Definition str_falsy (s : option string) : bool :=
  match s with
  | None => true
  | Some s => String.eqb s ""
  end.

(** The three locals of [processLeads]. *)
Record Acc := { leads : list Lead; phoneSet : gset string; dupCount : nat }.

(** The body of the outer [forEach]. *)
Definition process_row (clock : nat → Z) (columnMapping : gmap string string)
    (acc : Acc) (index : nat) (row : gmap string jsval) : Acc :=
  let lead := build_lead clock columnMapping index row in
  if str_falsy (name lead) || str_falsy (phone lead) then acc
  else
    let phone := strip_whitespace (default "" (phone lead)) in
    if bool_decide (phone ∈ phoneSet acc) then
      {| leads := leads acc; phoneSet := phoneSet acc; dupCount := S (dupCount acc) |}
    else
      {| leads := leads acc ++ [lead];
         phoneSet := {[ phone ]} ∪ phoneSet acc;
         dupCount := dupCount acc |}.

(** [rawData.forEach((row, index) => ...)], from index [index] on. *)
Fixpoint forEach_rows (clock : nat → Z) (columnMapping : gmap string string)
    (index : nat) (rows : list (gmap string jsval)) (acc : Acc) : Acc :=
  match rows with
  | [] => acc
  | row :: rest =>
      forEach_rows clock columnMapping (S index) rest
        (process_row clock columnMapping acc index row)
  end.

Definition process_rows (clock : nat → Z) (columnMapping : gmap string string)
    (rawData : list (gmap string jsval)) : Acc :=
  forEach_rows clock columnMapping 0 rawData
    {| leads := []; phoneSet := ∅; dupCount := 0 |}.

(** ** Component state *)

Inductive Step := upload | mapping | assignment | preview | complete.

Inductive AssignmentMode := auto | single.

Record File := { file_name : string; file_bytes : string }.

Record State := mkState {
  step : Step;
  file : option File;
  rawData : list (gmap string jsval);
  columns : option (list jsval);
  columnMapping : gmap string string;
  parsedLeads : list Lead;
  duplicates : nat;
  isProcessing : bool;
  assignmentMode : AssignmentMode;
  selectedCaller : string;
  callers : list (gmap string jsval);
}.

(** The [useState] initial values. *)
Definition initial : State :=
  {| step := upload; file := None; rawData := []; columns := Some [];
     columnMapping := ∅; parsedLeads := []; duplicates := 0;
     isProcessing := false; assignmentMode := auto; selectedCaller := "";
     callers := [] |}.

Definition setStep (v : Step) (s : State) : State :=
  let 'mkState _ b c d e f g h i j k := s in mkState v b c d e f g h i j k.
Definition setFile (v : option File) (s : State) : State :=
  let 'mkState a _ c d e f g h i j k := s in mkState a v c d e f g h i j k.
Definition setRawData (v : list (gmap string jsval)) (s : State) : State :=
  let 'mkState a b _ d e f g h i j k := s in mkState a b v d e f g h i j k.
Definition setColumns (v : option (list jsval)) (s : State) : State :=
  let 'mkState a b c _ e f g h i j k := s in mkState a b c v e f g h i j k.
Definition setColumnMapping (v : gmap string string) (s : State) : State :=
  let 'mkState a b c d _ f g h i j k := s in mkState a b c d v f g h i j k.
Definition setParsedLeads (v : list Lead) (s : State) : State :=
  let 'mkState a b c d e _ g h i j k := s in mkState a b c d e v g h i j k.
Definition setDuplicates (v : nat) (s : State) : State :=
  let 'mkState a b c d e f _ h i j k := s in mkState a b c d e f v h i j k.
Definition setIsProcessing (v : bool) (s : State) : State :=
  let 'mkState a b c d e f g _ i j k := s in mkState a b c d e f g v i j k.
Definition setAssignmentMode (v : AssignmentMode) (s : State) : State :=
  let 'mkState a b c d e f g h _ j k := s in mkState a b c d e f g h v j k.
Definition setSelectedCaller (v : string) (s : State) : State :=
  let 'mkState a b c d e f g h i _ k := s in mkState a b c d e f g h i v k.
Definition setCallers (v : list (gmap string jsval)) (s : State) : State :=
  let 'mkState a b c d e f g h i j _ := s in mkState a b c d e f g h i j v.

Definition resetState (s : State) : State :=
  setIsProcessing false
    (setDuplicates 0
      (setParsedLeads []
        (setColumnMapping ∅
          (setColumns (Some [])
            (setRawData []
              (setFile None
                (setStep upload s))))))).

Definition processLeads (clock : nat → Z) (s : State) : State :=
  let acc := process_rows clock (columnMapping s) (rawData s) in
  setStep preview (setParsedLeads (leads acc) (setDuplicates (dupCount acc) s)).


(** What a handler leaves behind: the next state, the toasts it showed, and
    whether it ended by throwing (for the [async] handler, by a rejected
    promise that nothing catches). *)
Record Handled := { next : State; shown : list string; thrown : bool }.

(** What [XLSX.read] followed by [sheet_to_json(sheet, {header: 1})] does
    with the bytes of a file: it throws, or it returns the rows of the first
    sheet as arrays of cells.  These arrays are sparse: a blank cell is a
    hole of its array, never a stored [undefined]; a hole reads as
    [undefined] and is written [JUndef] here. *)
Inductive decode_result :=
  | DecodeThrows
  | Decoded (json : list (list jsval)).

Definition is_hole (v : jsval) : bool :=
  match v with
  | JUndef => true
  | _ => false
  end.

(** [Object.fromEntries(entries)] on an array of pairs: a later equal key
    overwrites an earlier one. *)
Definition fromEntries (entries : list (string * jsval)) : gmap string jsval :=
  foldl (λ o kv, <[kv.1 := kv.2]> o) ∅ entries.

(** [Object.fromEntries(headers.map((h, i) => [h, r[i]]))].  [map] keeps the
    holes of [headers]; [fromEntries] reads its argument through the array
    iterator, finds [undefined] at a hole where it needs a pair, and throws
    a TypeError ([None]).  Without a hole every header names a key, and a
    cell that is a hole of [r] or past its end reads [undefined]. *)
Definition row_object (headers r : list jsval) : option (gmap string jsval) :=
  if existsb is_hole headers then None
  else Some (fromEntries
               (imap (λ i h, (js_String h, default JUndef (r !! i))) headers)).

Definition handleFileChange (selectedFile : option File) (decoded : decode_result)
    (s : State) : Handled :=
  match selectedFile with
  | None => {| next := s; shown := []; thrown := false |}
  | Some _ =>
      let s := setIsProcessing true s in
      match decoded with
      | DecodeThrows => {| next := s; shown := []; thrown := true |}
      | Decoded json =>
          let headers := json !! 0%nat in
          let rows := drop 1 json in
          let s := setColumns headers s in
          (* [headers.map] runs once per row: never when [json] is empty *)
          match mapM (row_object (default [] headers)) rows with
          | None => {| next := s; shown := []; thrown := true |}
          | Some rawRows =>
              let s := setRawData rawRows s in
              let s := setStep mapping s in
              let s := setIsProcessing false s in
              {| next := s; shown := []; thrown := false |}
          end
      end
  end.

(** ** The claims' vocabulary *)

(** The cell a row holds for a target field: [row[columnMapping[key]]], and
    [undefined] for a field without a column. *)
Definition mapped_cell (columnMapping : gmap string string)
    (row : gmap string jsval) (key : string) : jsval :=
  match columnMapping !! key with
  | Some col => get_prop row col
  | None => JUndef
  end.

(** A text field after coercion: unset for a falsy cell, else [String(val)]. *)
Definition coerce_text (val : jsval) : option string :=
  if js_truthy val then Some (js_String val) else None.

(** A row is rejected when its name or its phone is unset after coercion. *)
Definition rejected (columnMapping : gmap string string)
    (row : gmap string jsval) : bool :=
  match coerce_text (mapped_cell columnMapping row "name"),
        coerce_text (mapped_cell columnMapping row "phone") with
  | Some _, Some _ => false
  | _, _ => true
  end.

(** The candidate record of a row, if the row passes the required-field
    check of [processLeads]. *)
Definition candidate (clock : nat → Z) (columnMapping : gmap string string)
    (index : nat) (row : gmap string jsval) : option Lead :=
  let lead := build_lead clock columnMapping index row in
  if str_falsy (name lead) || str_falsy (phone lead) then None else Some lead.

Fixpoint candidates_from (clock : nat → Z) (columnMapping : gmap string string)
    (index : nat) (rows : list (gmap string jsval)) : list Lead :=
  match rows with
  | [] => []
  | row :: rest =>
      match candidate clock columnMapping index row with
      | Some lead => lead :: candidates_from clock columnMapping (S index) rest
      | None => candidates_from clock columnMapping (S index) rest
      end
  end.

Definition candidates (clock : nat → Z) (columnMapping : gmap string string)
    (rawData : list (gmap string jsval)) : list Lead :=
  candidates_from clock columnMapping 0 rawData.

(** The identity key of a candidate: its phone without whitespace. *)
Definition identity_key (l : Lead) : string :=
  strip_whitespace (default "" (phone l)).

(** Deduplication as the specification words it: a record is dropped, and
    counted, exactly when an earlier record of the input, kept or not, has
    its key; [earlier] is the input read so far. *)
Fixpoint dedupe_after (earlier cands : list Lead) : list Lead * nat :=
  match cands with
  | [] => ([], 0)
  | c :: cs =>
      let '(kept, dups) := dedupe_after (earlier ++ [c]) cs in
      if bool_decide (identity_key c ∈ identity_key <$> earlier)
      then (kept, S dups)
      else (c :: kept, dups)
  end.

Definition dedupe (cands : list Lead) : list Lead * nat := dedupe_after [] cands.

(** What a record holds besides its identifier and its two timestamps. *)
Definition content (l : Lead) :=
  (status l, stage l, priority l, category l, subcategory l,
   name l, phone l, email l, city l, value l, source l,
   projectName l, notes l).

(** The raw rows of a decoded sheet can be built: there is no data row, or
    the header row has no blank cell. *)
Definition rows_buildable (json : list (list jsval)) : bool :=
  match json with
  | headers :: _ :: _ => negb (existsb is_hole headers)
  | _ => true
  end.

(** Modelled from the spec: [FieldMapper.validate], which is not in the
    component; it "returns the list of required field keys that currently
    have no mapped column", read off the component's [leadFields]. *)
Inductive validation :=
  | Ok
  | MissingRequired (missingRequired : list string).

Definition missing_required (columnMapping : gmap string string) : list string :=
  key <$> List.filter
            (λ f, required f && bool_decide (columnMapping !! key f = None))
            leadFields.

Definition validate (columnMapping : gmap string string) : validation :=
  match missing_required columnMapping with
  | [] => Ok
  | ks => MissingRequired ks
  end.

(** Modelled from the spec: the [mapping → assignment] transition, which the
    component does not have; it is "triggered only when FieldMapper.validate()
    reports no missing required fields". *)
Definition advance_to_assignment (s : State) : State :=
  match step s, validate (columnMapping s) with
  | mapping, Ok => setStep assignment s
  | _, _ => s
  end.

(** ** The rest of the component *)

(** The effect run when [open] changes: with the dialog open, the fetched
    users are filtered by [u.role === "caller"] and stored. *)
Definition is_caller (u : gmap string jsval) : bool :=
  match get_prop u "role" with
  | JStr r => String.eqb r "caller"
  | _ => false
  end.

Definition loadCallers (open : bool) (data : list (gmap string jsval))
    (s : State) : State :=
  if open then setCallers (List.filter is_caller data) s else s.

(** [handleClose]: the reset, and the argument given to [onOpenChange]. *)
Definition handleClose (s : State) : State * bool := (resetState s, false).




(** Row order on leads: the index in the identifier grows. *)
Definition index_lt (a b : Lead) : Prop := id_index (id a) < id_index (id b).

(** Text made of ASCII bytes only. *)
Fixpoint is_ascii_text (s : string) : bool :=
  match s with
  | EmptyString => true
  | String a r => (N_of_ascii a <? 128)%N && is_ascii_text r
  end.

(** Removal of the six ASCII whitespace bytes. *)
Fixpoint drop_ascii_whitespace (s : string) : string :=
  match s with
  | EmptyString => EmptyString
  | String a r =>
      if ws1 (N_of_ascii a) then drop_ascii_whitespace r
      else String a (drop_ascii_whitespace r)
  end.

(** ** Properties of the field loop *)

Ltac key_cases :=
  repeat match goal with
    | |- context [String.eqb ?k ?lit] =>
        destruct (String.eqb_spec k lit); [subst; simpl in * |]
    end.

Lemma js_String_truthy val : js_truthy val = true → js_String val ≠ "".
Proof.
  destruct val as [|s|n|p]; simpl; intros Ht; try done.
  - intros ->. done.
  - apply num_to_string_nonempty.
  - apply builtin_to_string_nonempty.
Qed.

Lemma str_falsy_coerce_text val : str_falsy (coerce_text val) = true ↔ coerce_text val = None.
Proof.
  unfold coerce_text. destruct (js_truthy val) eqn:Ht; simpl; [|done].
  split; [|done]. intros He%String.eqb_eq. by apply js_String_truthy in Ht.
Qed.

Lemma apply_field_falsy row l key col :
  js_truthy (get_prop row col) = false → apply_field row l (key, col) = l.
Proof. intros Hf. unfold apply_field. by rewrite Hf. Qed.

Lemma apply_field_status row l kc : status (apply_field row l kc) = status l.
Proof.
  destruct kc as [key col], l. unfold apply_field.
  destruct (js_truthy (get_prop row col)); simpl; [|done].
  key_cases; done.
Qed.

Lemma apply_field_id row l kc :
  id (apply_field row l kc) = id l.
Proof.
  destruct kc as [key col], l. unfold apply_field.
  destruct (js_truthy (get_prop row col)); simpl; [|done].
  key_cases; done.
Qed.

(** A property [f] of the lead that only the entry of key [k] writes. *)
Section FieldOf.
Context {A : Type} (f : Lead → A) (k : string) (row : gmap string jsval).
Hypothesis frame :
  ∀ l key col, key ≠ k → f (apply_field row l (key, col)) = f l.
Hypothesis own :
  ∀ l l' col, f l = f l' →
    f (apply_field row l (k, col)) = f (apply_field row l' (k, col)).

Lemma field_absent entries l :
  k ∉ entries.*1 → f (apply_entries row l entries) = f l.
Proof.
  revert l. induction entries as [|[key col] es IH]; intros l Hk; [done|].
  rewrite fmap_cons, not_elem_of_cons in Hk. destruct Hk as [Hne Hk].
  unfold apply_entries in *. simpl. rewrite IH by done. by apply frame.
Qed.

Lemma field_present entries l col :
  NoDup entries.*1 → (k, col) ∈ entries →
  f (apply_entries row l entries) = f (apply_field row l (k, col)).
Proof.
  revert l. induction entries as [|[key c] es IH]; intros l Hnd Hin.
  { by apply elem_of_nil in Hin. }
  rewrite fmap_cons in Hnd. apply NoDup_cons in Hnd as [Hfresh Hnd].
  apply elem_of_cons in Hin as [Heq|Hin].
  - inversion Heq; subst key c.
    change (f (apply_entries row (apply_field row l (k, col)) es) =
            f (apply_field row l (k, col))).
    by apply field_absent.
  - assert (key ≠ k) as Hne.
    { intros ->. apply Hfresh. simpl.
      apply (list_elem_of_fmap_2 fst) in Hin. done. }
    change (f (apply_entries row (apply_field row l (key, c)) es) =
            f (apply_field row l (k, col))).
    rewrite IH by done. apply own. by apply frame.
Qed.

Lemma build_lead_field clock m index :
  f (build_lead clock m index row) =
  match m !! k with
  | Some col => f (apply_field row (new_lead clock index) (k, col))
  | None => f (new_lead clock index)
  end.
Proof.
  unfold build_lead. destruct (m !! k) as [col|] eqn:Hm.
  - apply field_present; [apply NoDup_fst_map_to_list|].
    by apply elem_of_map_to_list.
  - apply field_absent. intros Hin.
    apply list_elem_of_fmap in Hin as [[k' col] [-> Hin]].
    apply elem_of_map_to_list in Hin. simpl in Hm. congruence.
Qed.
End FieldOf.

Ltac field_cases :=
  intros; unfold apply_field;
  repeat match goal with l : Lead |- _ => destruct l end;
  simpl in *;
  match goal with
  | |- context [js_truthy ?v] => destruct (js_truthy v); simpl; [|done]
  end;
  key_cases; simpl in *; congruence.

Lemma build_lead_name clock m index row :
  name (build_lead clock m index row) = coerce_text (mapped_cell m row "name").
Proof.
  rewrite (build_lead_field name "name"); [|field_cases..].
  unfold mapped_cell, coerce_text, apply_field.
  destruct (m !! "name") as [col|]; [|done].
  by destruct (js_truthy (get_prop row col)).
Qed.

Lemma build_lead_phone clock m index row :
  phone (build_lead clock m index row) = coerce_text (mapped_cell m row "phone").
Proof.
  rewrite (build_lead_field phone "phone"); [|field_cases..].
  unfold mapped_cell, coerce_text, apply_field.
  destruct (m !! "phone") as [col|]; [|done].
  by destruct (js_truthy (get_prop row col)).
Qed.

(** Entries of distinct keys write distinct properties, so they commute and
    the order in which [Object.entries] lists them is immaterial. *)
Lemma apply_field_comm row l k1 c1 k2 c2 :
  k1 ≠ k2 →
  apply_field row (apply_field row l (k1, c1)) (k2, c2) =
  apply_field row (apply_field row l (k2, c2)) (k1, c1).
Proof.
  intros Hne. unfold apply_field. destruct l.
  destruct (js_truthy (get_prop row c1)), (js_truthy (get_prop row c2));
    simpl; try done.
  key_cases; done.
Qed.

Lemma apply_entries_Permutation row l es es' :
  NoDup es.*1 → es ≡ₚ es' → apply_entries row l es = apply_entries row l es'.
Proof.
  intros Hnd Hp. revert l Hnd.
  induction Hp as [|x es es' Hp IH|[k1 c1] [k2 c2] es|es1 es2 es3 Hp1 IH1 Hp2 IH2];
    intros l Hnd.
  - done.
  - rewrite fmap_cons in Hnd. apply NoDup_cons in Hnd as [_ Hnd].
    unfold apply_entries in *. simpl. by apply IH.
  - unfold apply_entries. simpl. f_equal. apply apply_field_comm.
    rewrite !fmap_cons in Hnd. apply NoDup_cons in Hnd as [Hfresh _].
    simpl in Hfresh. rewrite not_elem_of_cons in Hfresh. by destruct Hfresh.
  - rewrite IH1 by done. apply IH2. by rewrite <- Hp1.
Qed.

(** ** Rejection *)

Lemma str_falsy_coerce val : str_falsy (coerce_text val) = negb (js_truthy val).
Proof.
  unfold coerce_text. destruct (js_truthy val) eqn:Ht; simpl; [|done].
  apply String.eqb_neq. by apply js_String_truthy.
Qed.

Lemma rejected_falsy m row :
  rejected m row =
  negb (js_truthy (mapped_cell m row "name"))
  || negb (js_truthy (mapped_cell m row "phone")).
Proof.
  unfold rejected, coerce_text.
  by destruct (js_truthy (mapped_cell m row "name")),
              (js_truthy (mapped_cell m row "phone")).
Qed.

Lemma candidate_rejected clock m index row :
  candidate clock m index row =
  if rejected m row then None else Some (build_lead clock m index row).
Proof.
  unfold candidate.
  by rewrite build_lead_name, build_lead_phone, !str_falsy_coerce, rejected_falsy.
Qed.

Lemma build_lead_id clock m index row :
  id (build_lead clock m index row) =
  {| id_time := clock (3 * index); id_index := index |}.
Proof.
  unfold build_lead, apply_entries.
  generalize (map_to_list m). intros es.
  change (id (foldl (apply_field row) (new_lead clock index) es) = id (new_lead clock index)).
  generalize (new_lead clock index).
  induction es as [|kc es IH]; intros l; simpl; [done|].
  by rewrite IH, apply_field_id.
Qed.

Lemma build_lead_status clock m index row :
  status (build_lead clock m index row) = "active".
Proof.
  unfold build_lead, apply_entries.
  generalize (map_to_list m). intros es.
  change (status (foldl (apply_field row) (new_lead clock index) es) =
          status (new_lead clock index)).
  generalize (new_lead clock index).
  induction es as [|kc es IH]; intros l; simpl; [done|].
  by rewrite IH, apply_field_status.
Qed.

(** Where the candidates come from. *)
Lemma elem_of_candidates_from clock m index rows l :
  l ∈ candidates_from clock m index rows ↔
  ∃ i row, rows !! i = Some row ∧ rejected m row = false
           ∧ l = build_lead clock m (index + i) row.
Proof.
  revert index. induction rows as [|row rest IH]; intros index; simpl.
  { split; [by intros ?%elem_of_nil | by intros (i & r & ? & _)]. }
  rewrite candidate_rejected. split.
  - destruct (rejected m row) eqn:Hr.
    + intros (i & r & Hi & Hrej & ->)%IH. exists (S i), r.
      split_and!; [done..|]. f_equal. lia.
    + intros [->|(i & r & Hi & Hrej & ->)%IH]%elem_of_cons.
      * exists 0, row. split_and!; [done..|]. f_equal. lia.
      * exists (S i), r. split_and!; [done..|]. f_equal. lia.
  - intros (i & r & Hi & Hrej & ->). destruct i as [|i]; simpl in Hi.
    + inversion Hi; subst r. rewrite Hrej, Nat.add_0_r. apply elem_of_cons. by left.
    + assert (build_lead clock m (index + S i) r ∈ candidates_from clock m (S index) rest) as Hin.
      { apply IH. exists i, r. split_and!; [done..|]. f_equal. lia. }
      destruct (rejected m row); [done | by apply elem_of_cons; right].
Qed.

Lemma length_candidates_from clock m index rows :
  length (filter (λ row, Is_true (rejected m row)) rows)
  + length (candidates_from clock m index rows) = length rows.
Proof.
  revert index. induction rows as [|row rest IH]; intros index; simpl; [done|].
  rewrite candidate_rejected, filter_cons. specialize (IH (S index)).
  destruct (rejected m row) eqn:Hr; simpl.
  - destruct (decide (Is_true true)) as [_|[]]; simpl; [lia | done].
  - destruct (decide (Is_true false)) as [[]|_]; simpl. lia.
Qed.

Lemma NoDup_candidates_from clock m index rows :
  NoDup (candidates_from clock m index rows).
Proof.
  revert index. induction rows as [|row rest IH]; intros index; simpl.
  { apply NoDup_nil_2. }
  rewrite candidate_rejected. destruct (rejected m row); [apply IH|].
  apply NoDup_cons. split; [|apply IH].
  intros (i & r & _ & _ & Heq)%elem_of_candidates_from.
  apply (f_equal (λ l, id_index (id l))) in Heq.
  rewrite !build_lead_id in Heq. simpl in Heq. lia.
Qed.

(** ** Deduplication *)

Lemma dedupe_after_sublist earlier cands :
  (dedupe_after earlier cands).1 `sublist_of` cands.
Proof.
  revert earlier. induction cands as [|c cs IH]; intros earlier; simpl.
  { apply sublist_nil_l. }
  specialize (IH (earlier ++ [c])).
  destruct (dedupe_after (earlier ++ [c]) cs) as [kept dups]. simpl in IH.
  case_bool_decide; simpl; [by apply sublist_cons | by apply sublist_skip].
Qed.

Lemma dedupe_after_length earlier cands :
  (dedupe_after earlier cands).2 + length (dedupe_after earlier cands).1
  = length cands.
Proof.
  revert earlier. induction cands as [|c cs IH]; intros earlier; simpl; [done|].
  specialize (IH (earlier ++ [c])).
  destruct (dedupe_after (earlier ++ [c]) cs) as [kept dups]. simpl in IH.
  case_bool_decide; simpl; lia.
Qed.

Lemma elem_of_dedupe_after earlier cands j c :
  NoDup cands → cands !! j = Some c →
  c ∈ (dedupe_after earlier cands).1 ↔
  identity_key c ∉ identity_key <$> (earlier ++ take j cands).
Proof.
  revert earlier j. induction cands as [|c0 cs IH]; intros earlier j Hnd Hj.
  { done. }
  apply NoDup_cons in Hnd as [Hfresh Hnd]. simpl.
  pose proof (dedupe_after_sublist (earlier ++ [c0]) cs) as Hsub.
  specialize (IH (earlier ++ [c0])).
  destruct (dedupe_after (earlier ++ [c0]) cs) as [kept dups]. simpl in *.
  destruct j as [|j]; simpl in Hj.
  - inversion Hj; subst c0. rewrite take_0, app_nil_r.
    case_bool_decide as Hk; simpl.
    + split; [|done]. intros Hin. destruct Hfresh. by eapply elem_of_sublist.
    + split; [done|]. intros _. apply elem_of_cons. by left.
  - assert (c ≠ c0) as Hne.
    { intros ->. apply Hfresh. by eapply list_elem_of_lookup_2. }
    specialize (IH j Hnd Hj).
    replace (earlier ++ take (S j) (c0 :: cs)) with ((earlier ++ [c0]) ++ take j cs)
      by (by rewrite <- app_assoc).
    rewrite <- IH.
    case_bool_decide; simpl; [done|].
    rewrite elem_of_cons. intuition congruence.
Qed.

(** The loop of [processLeads] against the two stages it fuses: its set of
    phones holds the keys of the candidates read so far. *)
Lemma forEach_rows_dedupe clock m rows :
  ∀ index acc earlier,
    (∀ x, x ∈ phoneSet acc ↔ x ∈ identity_key <$> earlier) →
    let r := forEach_rows clock m index rows acc in
    let d := dedupe_after earlier (candidates_from clock m index rows) in
    leads r = leads acc ++ d.1 ∧ dupCount r = dupCount acc + d.2.
Proof.
  induction rows as [|row rest IH]; intros index acc earlier Hinv; simpl.
  { by rewrite app_nil_r, Nat.add_0_r. }
  unfold process_row, candidate.
  set (lead := build_lead clock m index row).
  destruct (str_falsy (name lead) || str_falsy (phone lead)).
  { by apply IH. }
  simpl. fold (identity_key lead).
  rewrite (bool_decide_ext _ _ (Hinv (identity_key lead))).
  case_bool_decide as Hseen.
  - edestruct (IH (S index)
      {| leads := leads acc; phoneSet := phoneSet acc; dupCount := S (dupCount acc) |}
      (earlier ++ [lead])) as [Hl Hd].
    { intros x. simpl. rewrite Hinv, fmap_app, elem_of_app. simpl.
      rewrite list_elem_of_singleton. intuition congruence. }
    rewrite Hl, Hd. simpl.
    destruct (dedupe_after (earlier ++ [lead]) _) as [kept dups]. simpl.
    split; [done | lia].
  - edestruct (IH (S index)
      {| leads := leads acc ++ [lead];
         phoneSet := {[ identity_key lead ]} ∪ phoneSet acc;
         dupCount := dupCount acc |}
      (earlier ++ [lead])) as [Hl Hd].
    { intros x. simpl. rewrite elem_of_union, elem_of_singleton, Hinv,
        fmap_app, elem_of_app. simpl. rewrite list_elem_of_singleton.
      tauto. }
    rewrite Hl, Hd. simpl.
    destruct (dedupe_after (earlier ++ [lead]) _) as [kept dups]. simpl.
    split; [by rewrite <- app_assoc | done].
Qed.

Lemma process_rows_dedupe clock m rows :
  (leads (process_rows clock m rows), dupCount (process_rows clock m rows))
  = dedupe (candidates clock m rows).
Proof.
  unfold process_rows, dedupe, candidates.
  edestruct (forEach_rows_dedupe clock m rows 0
    {| leads := []; phoneSet := ∅; dupCount := 0 |} []) as [Hl Hd].
  { intros x. simpl. rewrite elem_of_nil. set_solver. }
  rewrite Hl, Hd. simpl. by destruct (dedupe_after [] _).
Qed.

Lemma processLeads_parsedLeads clock s :
  parsedLeads (processLeads clock s)
  = leads (process_rows clock (columnMapping s) (rawData s)).
Proof. by destruct s. Qed.

Lemma processLeads_duplicates clock s :
  duplicates (processLeads clock s)
  = dupCount (process_rows clock (columnMapping s) (rawData s)).
Proof. by destruct s. Qed.

Lemma processLeads_inputs clock s :
  rawData (processLeads clock s) = rawData s
  ∧ columnMapping (processLeads clock s) = columnMapping s.
Proof. by destruct s. Qed.

(** ** Claims about [processLeads] *)

Lemma process_rows_provenance clock m rows l :
  l ∈ leads (process_rows clock m rows) →
  ∃ row, rows !! id_index (id l) = Some row
         ∧ rejected m row = false
         ∧ l = build_lead clock m (id_index (id l)) row.
Proof.
  intros Hl.
  pose proof (process_rows_dedupe clock m rows) as Hd.
  unfold dedupe, candidates in Hd.
  pose proof (dedupe_after_sublist [] (candidates_from clock m 0 rows)) as Hsub.
  rewrite <- Hd in Hsub. simpl in Hsub.
  eapply elem_of_sublist in Hl; [|exact Hsub].
  apply elem_of_candidates_from in Hl as (i & row & Hi & Hrej & ->).
  rewrite build_lead_id. simpl. by exists row.
Qed.

(** C1.  A row whose name or phone is unset after coercion leaves no record
    in the result (records carry the index of their row), every record of the
    result is the lead of a row that was not rejected, and the rejected rows,
    the duplicates and the records of the result add up to the input rows. *)
Theorem processLeads_accounts_for_every_row clock s :
  let m := columnMapping s in
  let s' := processLeads clock s in
  (∀ i row, rawData s !! i = Some row → rejected m row = true →
     ∀ l, l ∈ parsedLeads s' → id_index (id l) ≠ i)
  ∧ (∀ l, l ∈ parsedLeads s' →
       ∃ row, rawData s !! id_index (id l) = Some row
              ∧ rejected m row = false
              ∧ l = build_lead clock m (id_index (id l)) row)
  ∧ length (filter (λ row, Is_true (rejected m row)) (rawData s))
    + duplicates s' + length (parsedLeads s')
    = length (rawData s).
Proof.
  intros m s'. subst s'.
  rewrite processLeads_parsedLeads, processLeads_duplicates. fold m.
  pose proof (process_rows_dedupe clock m (rawData s)) as Hd.
  unfold dedupe, candidates in Hd.
  pose proof (dedupe_after_length [] (candidates_from clock m 0 (rawData s))) as Hlen.
  rewrite <- Hd in Hlen. simpl in Hlen.
  pose proof (process_rows_provenance clock m (rawData s)) as Hfrom.
  split_and!.
  - intros i row Hi Hrej l Hl <-.
    destruct (Hfrom l Hl) as (row' & Hi' & Hrej' & _). congruence.
  - exact Hfrom.
  - pose proof (length_candidates_from clock m 0 (rawData s)). lia.
Qed.

(** C2.  [processLeads] deduplicates its candidates on the phone without
    whitespace: the result is the candidates in their order with exactly
    those dropped whose key an earlier candidate already had, whatever either
    record holds, and [duplicates] counts the dropped ones. *)
Theorem processLeads_keeps_first_occurrence clock s :
  let cands := candidates clock (columnMapping s) (rawData s) in
  let s' := processLeads clock s in
  (parsedLeads s', duplicates s') = dedupe cands
  ∧ parsedLeads s' `sublist_of` cands
  ∧ (∀ j c, cands !! j = Some c →
       c ∈ parsedLeads s' ↔ identity_key c ∉ identity_key <$> take j cands)
  ∧ duplicates s' + length (parsedLeads s') = length cands.
Proof.
  intros cands s'. subst s'.
  rewrite processLeads_parsedLeads, processLeads_duplicates.
  pose proof (process_rows_dedupe clock (columnMapping s) (rawData s)) as Hd.
  fold cands in Hd. unfold dedupe in Hd.
  pose proof (dedupe_after_sublist [] cands) as Hsub.
  pose proof (dedupe_after_length [] cands) as Hlen.
  pose proof (λ j c, elem_of_dedupe_after [] cands j c
                (NoDup_candidates_from clock (columnMapping s) 0 (rawData s))) as Hel.
  rewrite <- Hd in Hsub, Hlen, Hel. simpl in Hsub, Hlen, Hel.
  by split_and!.
Qed.

(** ** Independence from the clock *)

Lemma apply_field_content row l l' kc :
  content l = content l' →
  content (apply_field row l kc) = content (apply_field row l' kc).
Proof.
  destruct kc as [key col], l, l'. unfold content, apply_field. simpl.
  intros [= -> -> -> -> -> -> -> -> -> -> -> -> ->].
  destruct (js_truthy (get_prop row col)); simpl; [|done].
  key_cases; done.
Qed.

Lemma build_lead_content clock1 clock2 m index row :
  content (build_lead clock1 m index row) = content (build_lead clock2 m index row).
Proof.
  unfold build_lead, apply_entries.
  assert (content (new_lead clock1 index) = content (new_lead clock2 index)) as H0
    by done.
  revert H0. generalize (new_lead clock1 index) (new_lead clock2 index).
  induction (map_to_list m) as [|kc es IH]; intros l l' Hc; simpl; [done|].
  by apply IH, apply_field_content.
Qed.

Lemma content_name_phone l l' :
  content l = content l' → name l = name l' ∧ phone l = phone l'.
Proof. destruct l, l'. unfold content. simpl. by intros [= _ _ _ _ _ -> -> _ _ _ _ _ _]. Qed.

Lemma forEach_rows_content clock1 clock2 m rows :
  ∀ index a1 a2,
    content <$> leads a1 = content <$> leads a2 →
    phoneSet a1 = phoneSet a2 → dupCount a1 = dupCount a2 →
    let r1 := forEach_rows clock1 m index rows a1 in
    let r2 := forEach_rows clock2 m index rows a2 in
    content <$> leads r1 = content <$> leads r2 ∧ dupCount r1 = dupCount r2.
Proof.
  induction rows as [|row rest IH]; intros index a1 a2 Hl Hp Hd; simpl; [done|].
  apply IH; unfold process_row;
    pose proof (build_lead_content clock1 clock2 m index row) as Hc;
    destruct (content_name_phone _ _ Hc) as [Hn Hph];
    rewrite Hn, Hph, Hp;
    destruct (str_falsy _ || str_falsy _); try done;
    case_bool_decide; simpl; try done; try congruence.
  rewrite !fmap_app. simpl. congruence.
Qed.

(** C8.  Running [processLeads] again on the state it left, at whatever
    readings of the clock, gives records with the same contents in the same
    order and the same [duplicates]. *)
Theorem processLeads_rerun_same_content clock1 clock2 s :
  let s1 := processLeads clock1 s in
  let s2 := processLeads clock2 s1 in
  content <$> parsedLeads s2 = content <$> parsedLeads s1
  ∧ duplicates s2 = duplicates s1.
Proof.
  intros s1 s2. subst s2 s1.
  rewrite !processLeads_parsedLeads, !processLeads_duplicates.
  destruct (processLeads_inputs clock1 s) as [-> ->].
  by apply forEach_rows_content.
Qed.

(** C9.  Whatever the row and the mapping, a mapping with a column for
    [status] included, the lead's status is "active": no entry of the field
    loop writes it.  A column for [stage] does override the default, as the
    mapping of both keys to one column holding "won" shows. *)
Theorem status_always_active clock m index row :
  status (build_lead clock m index row) = "active"
  ∧ let m' : gmap string string := <["stage" := "Status"]> {["status" := "Status"]} in
    let row' : gmap string jsval := {["Status" := JStr "won"]} in
    status (build_lead clock m' index row') = "active"
    ∧ stage (build_lead clock m' index row') = JStr "won".
Proof.
  split; [apply build_lead_status|]. split; [apply build_lead_status|].
  vm_compute. reflexivity.
Qed.

Lemma processLeads_status clock s l :
  l ∈ parsedLeads (processLeads clock s) → status l = "active".
Proof.
  rewrite processLeads_parsedLeads. intros Hl.
  destruct (process_rows_provenance _ _ _ _ Hl) as (row & _ & _ & ->).
  apply build_lead_status.
Qed.

(** ** Falsy cells *)

Lemma apply_entries_ext row1 row2 l es :
  (∀ col, get_prop row1 col = get_prop row2 col
          ∨ js_truthy (get_prop row1 col) = false
            ∧ js_truthy (get_prop row2 col) = false) →
  apply_entries row1 l es = apply_entries row2 l es.
Proof.
  intros Hrows. unfold apply_entries. revert l.
  induction es as [|[key col] es IH]; intros l; [done|].
  assert (apply_field row1 l (key, col) = apply_field row2 l (key, col)) as Hstep.
  { destruct (Hrows col) as [Heq|[Hf1 Hf2]].
    - unfold apply_field. by rewrite Heq.
    - by rewrite !apply_field_falsy. }
  cbn [foldl]. rewrite Hstep. apply IH.
Qed.

Lemma get_prop_insert row col col' v :
  get_prop (<[col := v]> row) col' =
  if decide (col = col') then v else get_prop row col'.
Proof.
  unfold get_prop. rewrite lookup_insert. by destruct (decide (col = col')).
Qed.

Lemma build_lead_value clock m index row :
  value (build_lead clock m index row) =
  match m !! "value" with
  | Some col =>
      let val := get_prop row col in
      if js_truthy val
      then Some (if num_truthy (js_Number val) then js_Number val else num_zero)
      else None
  | None => None
  end.
Proof.
  rewrite (build_lead_field value "value"); [|field_cases..].
  destruct (m !! "value") as [col|]; [|done].
  unfold apply_field. by destruct (js_truthy (get_prop row col)).
Qed.

(** C10.  A cell that is absent ([undefined]), the empty string or the
    number 0 makes the field loop skip its entry, for every key.  So a
    [value] column holding the number 0 leaves [value] unset, and a row with
    such a cell in a column is processed exactly as the row with that cell
    absent, rejection included. *)
Theorem falsy_cell_skipped clock m index row col cell :
  cell ∈ [JUndef; JStr ""; JNum num_zero] →
  (∀ lead key, get_prop row col = cell → apply_field row lead (key, col) = lead)
  ∧ (m !! "value" = Some col → get_prop row col = JNum num_zero →
       value (build_lead clock m index row) = None)
  ∧ (∀ acc, process_row clock m acc index (<[col := cell]> row)
            = process_row clock m acc index (<[col := JUndef]> row))
  ∧ rejected m (<[col := cell]> row) = rejected m (<[col := JUndef]> row).
Proof.
  intros Hcell.
  assert (js_truthy cell = false) as Hfalsy.
  { rewrite !elem_of_cons in Hcell.
    destruct Hcell as [->|[->|[->|[]%elem_of_nil]]]; simpl; try done.
    apply num_truthy_zero. }
  assert (∀ c, get_prop (<[col := cell]> row) c = get_prop (<[col := JUndef]> row) c
            ∨ js_truthy (get_prop (<[col := cell]> row) c) = false
              ∧ js_truthy (get_prop (<[col := JUndef]> row) c) = false) as Hrows.
  { intros c. rewrite !get_prop_insert. destruct (decide (col = c)); auto. }
  split_and!.
  - intros lead key Hget. apply apply_field_falsy. by rewrite Hget.
  - intros Hm Hget. rewrite build_lead_value, Hm. simpl.
    by rewrite Hget; simpl; rewrite num_truthy_zero.
  - intros acc. unfold process_row, build_lead.
    by rewrite (apply_entries_ext _ _ _ _ Hrows).
  - rewrite !rejected_falsy. unfold mapped_cell.
    destruct (m !! "name") as [c1|], (m !! "phone") as [c2|]; simpl; try done;
      repeat match goal with
        | |- context [get_prop (<[col := cell]> row) ?c] =>
            destruct (Hrows c) as [->|[-> ->]]
        end; done.
Qed.

(** ** The scenario of the specification *)

(** C3.  Header Full Name, Mobile, City; rows Asha, Ravi and one without a
    name; name, phone and city mapped.  The one record of the result is
    Asha's, Ravi's row has Asha's phone once the whitespace is gone and is
    counted as the one duplicate, and the third row is rejected. *)
Theorem scenario_asha_ravi clock :
  let json :=
    [ [JStr "Full Name"; JStr "Mobile"; JStr "City"];
      [JStr "Asha"; JStr "98765 43210"; JStr "Pune"];
      [JStr "Ravi"; JStr "9876543210"; JStr "Mumbai"];
      [JStr ""; JStr "9998887777"; JStr "Delhi"] ] in
  let m : gmap string string :=
    <["city" := "City"]> (<["phone" := "Mobile"]> {["name" := "Full Name"]}) in
  let f := {| file_name := "leads.xlsx"; file_bytes := "" |} in
  let s := setColumnMapping m (next (handleFileChange (Some f) (Decoded json) initial)) in
  let s' := processLeads clock s in
  parsedLeads s'
  = [ set_city "Pune" (set_phone "98765 43210" (set_name "Asha" (new_lead clock 0))) ]
  ∧ duplicates s' = 1
  ∧ length (parsedLeads s') = 1
  ∧ rejected m <$> rawData s = [false; false; true]
  ∧ identity_key <$> candidates clock m (rawData s) = ["9876543210"; "9876543210"]
  ∧ step s' = preview.
Proof. vm_compute. by split_and!. Qed.

(** ** Vocabulary tables *)

Lemma vocabulary_own (table : gmap string jsval) fallback token v :
  table !! token = Some (JStr v) → v ≠ "" →
  js_or (get_prop table token) fallback = JStr v.
Proof.
  intros Ht Hv. unfold js_or, get_prop. rewrite Ht. simpl.
  by apply String.eqb_neq in Hv as ->.
Qed.

Lemma vocabulary_fallback (table : gmap string jsval) fallback token :
  table !! token = None → token ∉ Object_prototype_keys →
  js_or (get_prop table token) fallback = fallback.
Proof.
  intros Ht Hp. unfold js_or, get_prop. rewrite Ht.
  by rewrite bool_decide_eq_false_2.
Qed.

Lemma vocabulary_inherited (table : gmap string jsval) fallback token :
  table !! token = None → token ∈ Object_prototype_keys →
  js_or (get_prop table token) fallback = JProto token.
Proof.
  intros Ht Hp. unfold js_or, get_prop. rewrite Ht.
  by rewrite bool_decide_eq_true_2.
Qed.

Lemma build_lead_stage clock m index row :
  stage (build_lead clock m index row) =
  match m !! "stage" with
  | Some col =>
      let val := get_prop row col in
      if js_truthy val
      then js_or (get_prop stageMapping (toLowerCase (js_String val))) (JStr "new")
      else JStr "new"
  | None => JStr "new"
  end.
Proof.
  rewrite (build_lead_field stage "stage"); [|field_cases..].
  destruct (m !! "stage") as [col|]; [|done].
  unfold apply_field. by destruct (js_truthy (get_prop row col)).
Qed.

(** A stage cell "WON" gives the canonical stage "won", and
    "unknown_stage" gives the fallback "new". *)
Lemma stage_WON_unknown clock m index row col :
  m !! "stage" = Some col →
  (get_prop row col = JStr "WON" → stage (build_lead clock m index row) = JStr "won")
  ∧ (get_prop row col = JStr "unknown_stage" →
       stage (build_lead clock m index row) = JStr "new").
Proof.
  intros Hm. rewrite build_lead_stage, Hm.
  split; intros ->; vm_compute; reflexivity.
Qed.

(** A [value] cell holding text that is not a number gives the value 0. *)
Lemma value_not_a_number clock m index row col text :
  m !! "value" = Some col → get_prop row col = JStr text → text ≠ "" →
  num_is_nan (string_to_number text) = true →
  value (build_lead clock m index row) = Some num_zero.
Proof.
  intros Hm Hget Hne Hnan. rewrite build_lead_value, Hm. simpl. rewrite Hget. simpl.
  apply String.eqb_neq in Hne as ->. simpl.
  by rewrite (num_truthy_nan _ Hnan).
Qed.

(** C7.  A [stage] cell "constructor" matches no token of the stage table,
    yet the stage of the lead is not the fallback "new": the lookup
    [stageMapping["constructor"]] finds the member every object inherits,
    which is truthy, so [|| "new"] does not apply. *)
Theorem stage_constructor_not_fallback clock index :
  let m : gmap string string := {["stage" := "Stage"]} in
  let row : gmap string jsval := {["Stage" := JStr "constructor"]} in
  stageMapping !! toLowerCase "constructor" = None
  ∧ stage (build_lead clock m index row) = JProto "constructor"
  ∧ stage (build_lead clock m index row) ≠ JStr "new".
Proof.
  intros m row.
  assert (stage (build_lead clock m index row) = JProto "constructor") as Hs.
  { rewrite build_lead_stage. vm_compute. reflexivity. }
  split_and!; [by vm_compute | exact Hs | by rewrite Hs].
Qed.

(** ** Reset *)

Lemma resetState_eq s :
  resetState s =
  {| step := upload; file := None; rawData := []; columns := Some [];
     columnMapping := ∅; parsedLeads := []; duplicates := 0;
     isProcessing := false;
     assignmentMode := assignmentMode s;
     selectedCaller := selectedCaller s;
     callers := callers s |}.
Proof. by destruct s. Qed.

(** C4.  After the assignment mode "single" and an operator were chosen,
    [resetState] restores the step, the file, the raw rows, the columns, the
    mapping, the computed records and the duplicate count, but the chosen
    mode and operator are still there: the state is not the initial one. *)
Theorem resetState_keeps_assignment_decision :
  let s := setSelectedCaller "caller_7" (setAssignmentMode single initial) in
  let s' := resetState s in
  assignmentMode s' = single
  ∧ selectedCaller s' = "caller_7"
  ∧ s' ≠ initial
  ∧ step s' = upload ∧ file s' = None ∧ rawData s' = [] ∧ columns s' = Some []
  ∧ columnMapping s' = ∅ ∧ parsedLeads s' = [] ∧ duplicates s' = 0.
Proof. simpl. by split_and!. Qed.

(** ** Validation of the mapping *)

Lemma missing_required_eq m :
  missing_required m =
  (if bool_decide (m !! "name" = None) then ["name"] else [])
  ++ (if bool_decide (m !! "phone" = None) then ["phone"] else []).
Proof.
  unfold missing_required. simpl.
  by destruct (bool_decide (m !! "name" = None)),
              (bool_decide (m !! "phone" = None)).
Qed.

Lemma missing_keys (m : gmap string string) :
  ∀ k, k ∈ (if bool_decide (m !! "name" = None) then ["name"] else [])
           ++ (if bool_decide (m !! "phone" = None) then ["phone"] else [])
       ↔ (k = "name" ∨ k = "phone") ∧ m !! k = None.
Proof.
  intros k. rewrite elem_of_app.
  do 2 case_bool_decide; rewrite ?list_elem_of_singleton, ?elem_of_nil;
    intuition (subst; auto; congruence).
Qed.

(** C5.  At the mapping step, when name or phone has no column, [validate]
    reports the non-empty list of exactly the required keys without a
    column and the step to assignment is not taken; with a column for name
    and none for phone the list is ["phone"]. *)
Theorem validate_blocks_missing_required s :
  step s = mapping →
  columnMapping s !! "name" = None ∨ columnMapping s !! "phone" = None →
  ∃ missing,
    validate (columnMapping s) = MissingRequired missing
    ∧ missing ≠ []
    ∧ (∀ k, k ∈ missing ↔ (k = "name" ∨ k = "phone") ∧ columnMapping s !! k = None)
    ∧ advance_to_assignment s = s
    ∧ step (advance_to_assignment s) = mapping
    ∧ (is_Some (columnMapping s !! "name") → missing = ["phone"]).
Proof.
  intros Hstep Hmiss. unfold advance_to_assignment, validate.
  rewrite Hstep, missing_required_eq.
  pose proof (missing_keys (columnMapping s)) as missing_keys.
  destruct (columnMapping s !! "name") as [c1|] eqn:Hn,
           (columnMapping s !! "phone") as [c2|] eqn:Hp; simpl in *.
  - by destruct Hmiss.
  - exists ["phone"]. by split_and!.
  - exists ["name"]. split_and!; try done; by intros [? ?].
  - exists ["name"; "phone"]. split_and!; try done; by intros [? ?].
Qed.

(** ** Selecting a file *)

Lemma mapM_row_object_dense headers rows :
  existsb is_hole headers = false →
  mapM (row_object headers) rows
  = Some (map (λ r, fromEntries
                      (imap (λ i h, (js_String h, default JUndef (r !! i))) headers))
            rows).
Proof.
  intros Hd. induction rows as [|r rows IH]; [done|].
  change (mapM (row_object headers) (r :: rows))
    with (y ← row_object headers r;
          k ← mapM (row_object headers) rows; mret (y :: k)).
  rewrite IH. unfold row_object. by rewrite Hd.
Qed.

Lemma mapM_row_object_sparse headers r rows :
  existsb is_hole headers = true →
  mapM (row_object headers) (r :: rows) = None.
Proof.
  intros Hs.
  change (mapM (row_object headers) (r :: rows))
    with (y ← row_object headers r;
          k ← mapM (row_object headers) rows; mret (y :: k)).
  assert (row_object headers r = None) as ->; [|done].
  unfold row_object. by rewrite Hs.
Qed.

(** C6, as the component has it.  The handler never shows an error.  When
    decoding the selected file throws, the handler ends there and the step
    is what it was.  When decoding returns, [columns] is the first row of
    the sheet (none for an empty sheet); the step becomes mapping, with one
    raw row for each further row, exactly when the raw rows can be built,
    that is when there is no data row, as for an empty sheet, or the header
    row has no blank cell; otherwise building them throws and the step and
    the raw rows are what they were. *)
Theorem handleFileChange_transitions f decoded s :
  let h := handleFileChange (Some f) decoded s in
  shown h = []
  ∧ match decoded with
    | DecodeThrows =>
        thrown h = true ∧ step (next h) = step s
        ∧ columns (next h) = columns s ∧ rawData (next h) = rawData s
    | Decoded json =>
        columns (next h) = json !! 0
        ∧ if rows_buildable json
          then thrown h = false ∧ step (next h) = mapping
               ∧ length (rawData (next h)) = length json - 1
          else thrown h = true ∧ step (next h) = step s
               ∧ rawData (next h) = rawData s
    end.
Proof.
  intros h. subst h. destruct decoded as [|json].
  { by destruct s. }
  unfold handleFileChange.
  destruct json as [|headers [|r rows]]; cbn [lookup list_lookup drop default rows_buildable].
  - by destruct s.
  - by destruct s.
  - destruct (existsb is_hole headers) eqn:Hh; cbn [negb].
    + rewrite mapM_row_object_sparse by done. by destruct s.
    + rewrite mapM_row_object_dense by done. destruct s. cbn.
      split_and!; try done. by rewrite length_map.
Qed.

(** ** Further properties of [processLeads] *)

Lemma dedupe_after_keys earlier cands :
  NoDup (identity_key <$> (dedupe_after earlier cands).1)
  ∧ ∀ c, c ∈ (dedupe_after earlier cands).1 →
         identity_key c ∉ identity_key <$> earlier.
Proof.
  revert earlier. induction cands as [|c0 cs IH]; intros earlier; simpl.
  { split; [apply NoDup_nil_2 | by intros c ?%elem_of_nil]. }
  destruct (IH (earlier ++ [c0])) as [Hnd Hfresh].
  destruct (dedupe_after (earlier ++ [c0]) cs) as [kept dups]. simpl in *.
  assert (∀ c, c ∈ kept → identity_key c ∉ identity_key <$> earlier) as Hearlier.
  { intros c Hc Hin. apply (Hfresh c Hc). rewrite fmap_app, elem_of_app. by left. }
  case_bool_decide as Hk; simpl; [done|]. split.
  - apply NoDup_cons. split; [|done].
    intros (c & Heq & Hc)%list_elem_of_fmap. apply (Hfresh c Hc).
    rewrite fmap_app, elem_of_app. right. simpl.
    rewrite list_elem_of_singleton. done.
  - intros c [->|Hc]%elem_of_cons; [done | by apply Hearlier].
Qed.

(** X1.  No two records of the result have the same phone once whitespace
    is removed. *)
Theorem parsedLeads_keys_distinct clock s :
  NoDup (identity_key <$> parsedLeads (processLeads clock s)).
Proof.
  rewrite processLeads_parsedLeads.
  pose proof (process_rows_dedupe clock (columnMapping s) (rawData s)) as Hd.
  unfold dedupe in Hd.
  destruct (dedupe_after_keys [] (candidates clock (columnMapping s) (rawData s)))
    as [Hnd _].
  by rewrite <- Hd in Hnd.
Qed.

Lemma process_rows_name_phone clock m rows l :
  l ∈ leads (process_rows clock m rows) →
  ∃ n p, name l = Some n ∧ phone l = Some p ∧ n ≠ "" ∧ p ≠ "".
Proof.
  intros Hl.
  destruct (process_rows_provenance _ _ _ _ Hl) as (row & _ & Hrej & ->).
  rewrite rejected_falsy in Hrej. apply orb_false_elim in Hrej as [Hn Hp].
  apply negb_false_iff in Hn, Hp.
  rewrite build_lead_name, build_lead_phone. unfold coerce_text.
  rewrite Hn, Hp. eexists _, _. split_and!; try done; by apply js_String_truthy.
Qed.

(** X2.  Every record of the result has a name and a phone, neither of them
    the empty string. *)
Theorem parsedLeads_name_phone clock s :
  Forall (λ l, ∃ n p, name l = Some n ∧ phone l = Some p ∧ n ≠ "" ∧ p ≠ "")
    (parsedLeads (processLeads clock s)).
Proof.
  apply Forall_forall. intros l. rewrite processLeads_parsedLeads.
  apply process_rows_name_phone.
Qed.

Lemma StronglySorted_sublist {A} (R : A → A → Prop) l1 l2 :
  l1 `sublist_of` l2 → StronglySorted R l2 → StronglySorted R l1.
Proof.
  induction 1 as [|x l1 l2 Hsub IH|x l1 l2 Hsub IH]; intros Hs; [done|..].
  - apply StronglySorted_inv in Hs as [Hs Hall]. constructor; [by apply IH|].
    rewrite Forall_forall in Hall. apply Forall_forall. intros y Hy.
    apply Hall. by eapply elem_of_sublist.
  - apply StronglySorted_inv in Hs as [Hs _]. by apply IH.
Qed.

Lemma candidates_from_sorted clock m index rows :
  StronglySorted index_lt (candidates_from clock m index rows).
Proof.
  revert index. induction rows as [|row rest IH]; intros index; simpl.
  { constructor. }
  rewrite candidate_rejected. destruct (rejected m row); [apply IH|].
  constructor; [apply IH|]. apply Forall_forall.
  intros l (i & r & _ & _ & ->)%elem_of_candidates_from.
  unfold index_lt. rewrite !build_lead_id. simpl. lia.
Qed.

Lemma index_lt_NoDup l : StronglySorted index_lt l → NoDup (id <$> l).
Proof.
  induction 1 as [|a l Hs IH Hall]; [apply NoDup_nil_2|].
  rewrite fmap_cons. apply NoDup_cons. split; [|done].
  intros (b & Heq & Hb)%list_elem_of_fmap.
  rewrite Forall_forall in Hall. specialize (Hall b Hb).
  unfold index_lt in Hall. rewrite Heq in Hall. lia.
Qed.

(** X3.  The records of the result are in row order, their indices strictly
    growing, so their identifiers are pairwise distinct whatever the clock
    reads, even when it does not advance between rows. *)
Theorem parsedLeads_ids_increasing clock s :
  StronglySorted index_lt (parsedLeads (processLeads clock s))
  ∧ NoDup (id <$> parsedLeads (processLeads clock s)).
Proof.
  assert (StronglySorted index_lt (parsedLeads (processLeads clock s))) as Hs.
  { rewrite processLeads_parsedLeads.
    pose proof (process_rows_dedupe clock (columnMapping s) (rawData s)) as Hd.
    unfold dedupe, candidates in Hd.
    pose proof (dedupe_after_sublist []
      (candidates_from clock (columnMapping s) 0 (rawData s))) as Hsub.
    rewrite <- Hd in Hsub. simpl in Hsub.
    eapply StronglySorted_sublist; [exact Hsub | apply candidates_from_sorted]. }
  split; [exact Hs | by apply index_lt_NoDup].
Qed.

Lemma candidates_from_all_rejected clock m index rows :
  (∀ row, row ∈ rows → rejected m row = true) →
  candidates_from clock m index rows = [].
Proof.
  revert index. induction rows as [|row rest IH]; intros index Hall; simpl; [done|].
  rewrite candidate_rejected, (Hall row) by (apply elem_of_cons; by left).
  apply IH. intros r Hr. apply Hall. apply elem_of_cons. by right.
Qed.

(** X4.  [processLeads] runs whatever the mapping is: with no column for
    name, or none for phone, every row is rejected, the result is empty and
    no duplicate is counted. *)
Theorem processLeads_required_unmapped clock s :
  columnMapping s !! "name" = None ∨ columnMapping s !! "phone" = None →
  parsedLeads (processLeads clock s) = []
  ∧ duplicates (processLeads clock s) = 0
  ∧ step (processLeads clock s) = preview.
Proof.
  intros Hmiss. rewrite processLeads_parsedLeads, processLeads_duplicates.
  pose proof (process_rows_dedupe clock (columnMapping s) (rawData s)) as Hd.
  unfold dedupe, candidates in Hd.
  rewrite candidates_from_all_rejected in Hd.
  - simpl in Hd. inversion Hd. split_and!; try done. by destruct s.
  - intros row _. unfold rejected, mapped_cell.
    destruct Hmiss as [-> | ->]; simpl; [done|].
    by destruct (coerce_text _).
Qed.

Lemma forEach_rows_app clock m rows rows' :
  ∀ index acc,
    forEach_rows clock m index (rows ++ rows') acc
    = forEach_rows clock m (index + length rows) rows'
        (forEach_rows clock m index rows acc).
Proof.
  induction rows as [|row rest IH]; intros index acc; simpl.
  { by rewrite Nat.add_0_r. }
  rewrite IH. f_equal. lia.
Qed.

Lemma forEach_rows_grows clock m rows :
  ∀ index acc,
    leads acc `prefix_of` leads (forEach_rows clock m index rows acc)
    ∧ (dupCount acc ≤ dupCount (forEach_rows clock m index rows acc))%nat.
Proof.
  induction rows as [|row rest IH]; intros index acc; simpl; [done|].
  destruct (IH (S index) (process_row clock m acc index row)) as [Hp Hd].
  assert (leads acc `prefix_of` leads (process_row clock m acc index row)
          ∧ (dupCount acc ≤ dupCount (process_row clock m acc index row))%nat)
    as [Hp' Hd'].
  { unfold process_row. destruct (str_falsy _ || str_falsy _); [done|].
    case_bool_decide; simpl; split; try done; try lia.
    by apply prefix_app_r. }
  split; [by etrans | lia].
Qed.

(** X5.  Rows added at the end of the sheet leave the records already
    accepted as they are: the result for the shorter sheet is a prefix of the
    result for the longer one, and the duplicate count does not decrease. *)
Theorem processLeads_append clock s more :
  let s1 := processLeads clock s in
  let s2 := processLeads clock (setRawData (rawData s ++ more) s) in
  parsedLeads s1 `prefix_of` parsedLeads s2 ∧ (duplicates s1 ≤ duplicates s2)%nat.
Proof.
  intros s1 s2. subst s1 s2.
  rewrite !processLeads_parsedLeads, !processLeads_duplicates.
  replace (columnMapping (setRawData (rawData s ++ more) s)) with (columnMapping s)
    by (by destruct s).
  replace (rawData (setRawData (rawData s ++ more) s)) with (rawData s ++ more)
    by (by destruct s).
  unfold process_rows. rewrite forEach_rows_app. apply forEach_rows_grows.
Qed.

Lemma build_lead_content_index clock1 clock2 m i j row :
  content (build_lead clock1 m i row) = content (build_lead clock2 m j row).
Proof.
  unfold build_lead, apply_entries.
  assert (content (new_lead clock1 i) = content (new_lead clock2 j)) as H0 by done.
  revert H0. generalize (new_lead clock1 i) (new_lead clock2 j).
  induction (map_to_list m) as [|kc es IH]; intros l l' Hc; simpl; [done|].
  by apply IH, apply_field_content.
Qed.

Lemma process_row_rejected clock m acc index row :
  rejected m row = true → process_row clock m acc index row = acc.
Proof.
  intros Hrej. unfold process_row.
  by rewrite build_lead_name, build_lead_phone, !str_falsy_coerce,
    <- rejected_falsy, Hrej.
Qed.

Lemma process_row_content clock1 clock2 m i j row a1 a2 :
  content <$> leads a1 = content <$> leads a2 →
  phoneSet a1 = phoneSet a2 → dupCount a1 = dupCount a2 →
  let r1 := process_row clock1 m a1 i row in
  let r2 := process_row clock2 m a2 j row in
  content <$> leads r1 = content <$> leads r2
  ∧ phoneSet r1 = phoneSet r2 ∧ dupCount r1 = dupCount r2.
Proof.
  intros Hl Hp Hd. simpl. unfold process_row.
  pose proof (build_lead_content_index clock1 clock2 m i j row) as Hc.
  destruct (content_name_phone _ _ Hc) as [Hn Hph].
  rewrite Hn, Hph, Hp.
  destruct (str_falsy _ || str_falsy _); [done|].
  case_bool_decide; simpl; split_and!; try done; try congruence.
  rewrite !fmap_app. simpl. congruence.
Qed.

Lemma forEach_rows_skip_rejected clock1 clock2 m rows :
  ∀ i j a1 a2,
    content <$> leads a1 = content <$> leads a2 →
    phoneSet a1 = phoneSet a2 → dupCount a1 = dupCount a2 →
    let r1 := forEach_rows clock1 m i rows a1 in
    let r2 := forEach_rows clock2 m j
                (List.filter (λ row, negb (rejected m row)) rows) a2 in
    content <$> leads r1 = content <$> leads r2 ∧ dupCount r1 = dupCount r2.
Proof.
  induction rows as [|row rest IH]; intros i j a1 a2 Hl Hp Hd; simpl; [done|].
  destruct (rejected m row) eqn:Hrej; simpl.
  - rewrite process_row_rejected by done. by apply IH.
  - destruct (process_row_content clock1 clock2 m i j row a1 a2 Hl Hp Hd)
      as (Hl' & Hp' & Hd').
    by apply IH.
Qed.

(** X6.  Rejected rows leave no trace: with them removed from the sheet, the
    records of the result have the same contents in the same order and the
    duplicate count is the same.  So a row without a name never makes a later
    row with its phone a duplicate. *)
Theorem rejected_rows_invisible clock1 clock2 s :
  let valid := List.filter (λ row, negb (rejected (columnMapping s) row)) (rawData s) in
  let s1 := processLeads clock1 s in
  let s2 := processLeads clock2 (setRawData valid s) in
  content <$> parsedLeads s1 = content <$> parsedLeads s2
  ∧ duplicates s1 = duplicates s2.
Proof.
  intros valid s1 s2. subst s1 s2.
  rewrite !processLeads_parsedLeads, !processLeads_duplicates.
  replace (columnMapping (setRawData valid s)) with (columnMapping s)
    by (by destruct s).
  replace (rawData (setRawData valid s)) with valid by (by destruct s).
  by apply forEach_rows_skip_rejected.
Qed.

(** X7.  The lead of a row does not depend on the order in which the entries
    of the mapping are listed: any list of entries with distinct keys gives
    the lead of the mapping made of them. *)
Theorem build_lead_entries_order clock index row (entries : list (string * string)) :
  NoDup entries.*1 →
  apply_entries row (new_lead clock index) entries
  = build_lead clock (list_to_map entries) index row.
Proof.
  intros Hnd. unfold build_lead. apply apply_entries_Permutation; [done|].
  symmetry. by apply map_to_list_to_map.
Qed.

(** X8.  Each of the six text fields holds [String] of the cell in its
    column when that cell is truthy, and is unset otherwise, in particular
    when the field has no column. *)
Theorem build_lead_text_fields clock m index row :
  let l := build_lead clock m index row in
  name l = coerce_text (mapped_cell m row "name")
  ∧ phone l = coerce_text (mapped_cell m row "phone")
  ∧ email l = coerce_text (mapped_cell m row "email")
  ∧ city l = coerce_text (mapped_cell m row "city")
  ∧ projectName l = coerce_text (mapped_cell m row "projectName")
  ∧ notes l = coerce_text (mapped_cell m row "notes").
Proof.
  simpl. split_and!; [apply build_lead_name | apply build_lead_phone |..].
  - rewrite (build_lead_field email "email"); [|field_cases..].
    unfold mapped_cell, coerce_text, apply_field.
    destruct (m !! "email") as [col|]; [|done].
    by destruct (js_truthy (get_prop row col)).
  - rewrite (build_lead_field city "city"); [|field_cases..].
    unfold mapped_cell, coerce_text, apply_field.
    destruct (m !! "city") as [col|]; [|done].
    by destruct (js_truthy (get_prop row col)).
  - rewrite (build_lead_field projectName "projectName"); [|field_cases..].
    unfold mapped_cell, coerce_text, apply_field.
    destruct (m !! "projectName") as [col|]; [|done].
    by destruct (js_truthy (get_prop row col)).
  - rewrite (build_lead_field notes "notes"); [|field_cases..].
    unfold mapped_cell, coerce_text, apply_field.
    destruct (m !! "notes") as [col|]; [|done].
    by destruct (js_truthy (get_prop row col)).
Qed.

Lemma build_lead_priority clock m index row :
  priority (build_lead clock m index row) =
  match m !! "priority" with
  | Some col =>
      let val := get_prop row col in
      if js_truthy val
      then js_or (get_prop priorityMapping (toLowerCase (js_String val))) (JStr "warm")
      else JStr "warm"
  | None => JStr "warm"
  end.
Proof.
  rewrite (build_lead_field priority "priority"); [|field_cases..].
  destruct (m !! "priority") as [col|]; [|done].
  unfold apply_field. by destruct (js_truthy (get_prop row col)).
Qed.

Lemma build_lead_source clock m index row :
  source (build_lead clock m index row) =
  match m !! "source" with
  | Some col =>
      let val := get_prop row col in
      if js_truthy val
      then Some (js_or (get_prop sourceMapping (toLowerCase (js_String val))) (JStr "other"))
      else None
  | None => None
  end.
Proof.
  rewrite (build_lead_field source "source"); [|field_cases..].
  destruct (m !! "source") as [col|]; [|done].
  unfold apply_field. by destruct (js_truthy (get_prop row col)).
Qed.

(** The entries of the three tables are non-empty strings. *)
Lemma table_values_truthy token v :
  sourceMapping !! token = Some v ∨ stageMapping !! token = Some v
  ∨ priorityMapping !! token = Some v →
  js_truthy v = true.
Proof.
  intros [Ht|[Ht|Ht]]; apply elem_of_list_to_map_2 in Ht;
    repeat (apply elem_of_cons in Ht as [Ht|Ht]; [by inversion Ht|]);
    by apply elem_of_nil in Ht.
Qed.

Lemma table_lookup_or (table : gmap string jsval) fallback token :
  (∀ v, table !! token = Some v → js_truthy v = true) →
  token ∉ Object_prototype_keys →
  js_or (get_prop table token) fallback = default fallback (table !! token).
Proof.
  intros Htruthy Hp. destruct (table !! token) as [v|] eqn:Ht.
  - unfold js_or, get_prop. rewrite Ht. simpl. by rewrite Htruthy.
  - by apply vocabulary_fallback.
Qed.

(** X9.  For a truthy cell whose lower-cased text is not the name of a
    member every object inherits, the enumerated field is the entry of its
    table for that text, and the table's fallback when there is none:
    "other" for source, "new" for stage, "warm" for priority. *)
Theorem enum_cell_normalised clock m index row col :
  let l := build_lead clock m index row in
  let token := toLowerCase (js_String (get_prop row col)) in
  js_truthy (get_prop row col) = true →
  token ∉ Object_prototype_keys →
  (m !! "source" = Some col →
     source l = Some (default (JStr "other") (sourceMapping !! token)))
  ∧ (m !! "stage" = Some col →
     stage l = default (JStr "new") (stageMapping !! token))
  ∧ (m !! "priority" = Some col →
     priority l = default (JStr "warm") (priorityMapping !! token)).
Proof.
  intros l token Ht Hp. subst l. split_and!; intros Hm.
  - rewrite build_lead_source, Hm. simpl. rewrite Ht. f_equal.
    apply table_lookup_or; [|done]. intros v Hv.
    apply (table_values_truthy token). auto.
  - rewrite build_lead_stage, Hm. simpl. rewrite Ht.
    apply table_lookup_or; [|done]. intros v Hv.
    apply (table_values_truthy token). auto.
  - rewrite build_lead_priority, Hm. simpl. rewrite Ht.
    apply table_lookup_or; [|done]. intros v Hv.
    apply (table_values_truthy token). auto.
Qed.

Lemma table_or_range (table : gmap string jsval) fallback token :
  let v := js_or (get_prop table token) fallback in
  table !! token = Some v ∨ v = fallback
  ∨ (token ∈ Object_prototype_keys ∧ v = JProto token).
Proof.
  unfold js_or, get_prop. destruct (table !! token) as [x|] eqn:Ht; simpl.
  - destruct (js_truthy x); auto.
  - case_bool_decide; simpl; auto.
Qed.

(** X10.  Stage and priority are never unset: each is an entry of its table
    or a member inherited from [Object.prototype]; source is unset, or an
    entry of its table, or such a member. *)
Theorem enum_fields_range clock m index row :
  let l := build_lead clock m index row in
  let inherited v := ∃ p, p ∈ Object_prototype_keys ∧ v = JProto p in
  ((∃ token, stageMapping !! token = Some (stage l)) ∨ inherited (stage l))
  ∧ ((∃ token, priorityMapping !! token = Some (priority l)) ∨ inherited (priority l))
  ∧ (source l = None
     ∨ ∃ v, source l = Some v
            ∧ ((∃ token, sourceMapping !! token = Some v) ∨ inherited v)).
Proof.
  simpl. split_and!.
  - rewrite build_lead_stage.
    assert (∃ token, stageMapping !! token = Some (JStr "new")) as Hnew
      by (by exists "new").
    destruct (m !! "stage") as [col|]; simpl; [|by left].
    destruct (js_truthy (get_prop row col)); [|by left].
    destruct (table_or_range stageMapping (JStr "new")
                (toLowerCase (js_String (get_prop row col)))) as [Hv|[Hv|[Hp Hv]]];
      simpl in Hv; rewrite ?Hv; eauto.
  - rewrite build_lead_priority.
    assert (∃ token, priorityMapping !! token = Some (JStr "warm")) as Hwarm
      by (by exists "warm").
    destruct (m !! "priority") as [col|]; simpl; [|by left].
    destruct (js_truthy (get_prop row col)); [|by left].
    destruct (table_or_range priorityMapping (JStr "warm")
                (toLowerCase (js_String (get_prop row col)))) as [Hv|[Hv|[Hp Hv]]];
      simpl in Hv; rewrite ?Hv; eauto.
  - rewrite build_lead_source.
    assert (∃ token, sourceMapping !! token = Some (JStr "other")) as Hother
      by (by exists "other").
    destruct (m !! "source") as [col|]; simpl; [|by left].
    destruct (js_truthy (get_prop row col)); [|by left].
    right. eexists. split; [done|].
    destruct (table_or_range sourceMapping (JStr "other")
                (toLowerCase (js_String (get_prop row col)))) as [Hv|[Hv|[Hp Hv]]];
      simpl in Hv; rewrite ?Hv; eauto.
Qed.

(** X11.  [value] is unset exactly when the cell of its column is falsy (or
    there is no column), and a value that is set is a truthy number or 0:
    text that is not a number, which converts to NaN, is stored as 0. *)
Theorem build_lead_value_range clock m index row :
  let l := build_lead clock m index row in
  (value l = None ↔ js_truthy (mapped_cell m row "value") = false)
  ∧ ∀ n, value l = Some n → n = num_zero ∨ num_truthy n = true.
Proof.
  simpl. rewrite build_lead_value. unfold mapped_cell.
  destruct (m !! "value") as [col|]; simpl; [|done].
  destruct (js_truthy (get_prop row col)); [|done].
  split; [done|]. intros n [= <-].
  destruct (num_truthy (js_Number (get_prop row col))) eqn:Hn; auto.
Qed.

Lemma apply_field_system row l kc :
  let sys l := (id l, createdAt l, updatedAt l, status l, category l, subcategory l) in
  sys (apply_field row l kc) = sys l.
Proof.
  destruct kc as [key col], l. unfold apply_field. simpl.
  destruct (js_truthy (get_prop row col)); simpl; [|done].
  key_cases; done.
Qed.

(** X12.  No entry of the mapping, whatever its key, writes the identifier,
    the timestamps, the status, the category or the subcategory: they are
    those of the literal the row started from. *)
Theorem build_lead_system_fields clock m index row :
  let l := build_lead clock m index row in
  id l = {| id_time := clock (3 * index); id_index := index |}
  ∧ createdAt l = clock (3 * index + 1)
  ∧ updatedAt l = clock (3 * index + 2)
  ∧ status l = "active"
  ∧ category l = "property"
  ∧ subcategory l = "india_property".
Proof.
  simpl. unfold build_lead, apply_entries.
  assert (∀ es l0,
    (id (foldl (apply_field row) l0 es), createdAt (foldl (apply_field row) l0 es),
     updatedAt (foldl (apply_field row) l0 es), status (foldl (apply_field row) l0 es),
     category (foldl (apply_field row) l0 es), subcategory (foldl (apply_field row) l0 es))
    = (id l0, createdAt l0, updatedAt l0, status l0, category l0, subcategory l0)) as Hsys.
  { induction es as [|kc es IH]; intros l0; simpl; [done|].
    rewrite IH. apply apply_field_system. }
  specialize (Hsys (map_to_list m) (new_lead clock index)).
  simpl in Hsys. inversion Hsys as [[H1 H2 H3 H4 H5 H6]].
  rewrite H1, H2, H3, H4, H5, H6. by split_and!.
Qed.

Lemma apply_entries_ext_in row1 row2 l es :
  (∀ k c, (k, c) ∈ es → get_prop row1 c = get_prop row2 c) →
  apply_entries row1 l es = apply_entries row2 l es.
Proof.
  unfold apply_entries. revert l.
  induction es as [|[key col] es IH]; intros l Hrows; [done|].
  assert (apply_field row1 l (key, col) = apply_field row2 l (key, col)) as Hstep.
  { unfold apply_field. rewrite (Hrows key col); [done|]. apply elem_of_cons. by left. }
  cbn [foldl]. rewrite Hstep. apply IH.
  intros k c Hin. apply (Hrows k c). apply elem_of_cons. by right.
Qed.

(** X13.  A column that the mapping does not use is ignored: whatever its
    cell holds, the row gives the same lead and is processed the same way. *)
Theorem unmapped_column_ignored clock m index row col v :
  (∀ k, m !! k ≠ Some col) →
  build_lead clock m index (<[col := v]> row) = build_lead clock m index row
  ∧ ∀ acc, process_row clock m acc index (<[col := v]> row)
           = process_row clock m acc index row.
Proof.
  intros Hunused.
  assert (build_lead clock m index (<[col := v]> row) = build_lead clock m index row)
    as Heq.
  { unfold build_lead. apply apply_entries_ext_in.
    intros k c Hin%elem_of_map_to_list. rewrite get_prop_insert.
    destruct (decide (col = c)) as [->|]; [|done]. by destruct (Hunused k). }
  split; [exact Heq|]. intros acc. unfold process_row. by rewrite Heq.
Qed.

(** ** The rows made by [handleFileChange] *)

Lemma foldl_insert_notin (es : list (string * jsval)) (o : gmap string jsval) k :
  (∀ kv, kv ∈ es → kv.1 ≠ k) →
  foldl (λ o kv, <[kv.1 := kv.2]> o) o es !! k = o !! k.
Proof.
  revert o. induction es as [|e es IH]; intros o Hes; simpl; [done|].
  rewrite IH.
  - apply lookup_insert_ne. apply Hes. apply elem_of_cons. by left.
  - intros kv Hkv. apply Hes. apply elem_of_cons. by right.
Qed.

Lemma foldl_insert_last (es : list (string * jsval)) (o : gmap string jsval) i k v :
  es !! i = Some (k, v) →
  (∀ j kv, i < j → es !! j = Some kv → kv.1 ≠ k) →
  foldl (λ o kv, <[kv.1 := kv.2]> o) o es !! k = Some v.
Proof.
  revert o i. induction es as [|e es IH]; intros o i Hi Hlater; [done|].
  destruct i as [|i]; simpl in *.
  - inversion Hi; subst e. rewrite foldl_insert_notin.
    + simpl. apply lookup_insert_eq.
    + intros kv (j & Hj)%list_elem_of_lookup. apply (Hlater (S j)); [lia | done].
  - apply (IH _ i); [done|]. intros j kv Hij Hj. apply (Hlater (S j)); [lia | done].
Qed.

Lemma dom_foldl_insert (es : list (string * jsval)) (o : gmap string jsval) :
  dom (foldl (λ o kv, <[kv.1 := kv.2]> o) o es) = dom o ∪ list_to_set es.*1.
Proof.
  revert o. induction es as [|e es IH]; intros o; simpl.
  - apply set_eq. intros x. rewrite elem_of_union, elem_of_empty. tauto.
  - rewrite IH, dom_insert_L. apply set_eq. intros x.
    rewrite !elem_of_union. tauto.
Qed.

(** X14.  After a sheet whose header row has no blank cell is read, the raw
    row of each data row, read at a header name, gives the cell under the
    last header of that name, and [undefined] when the data row has a blank
    there or is too short to have one. *)
Theorem handleFileChange_cell f hdr rows s i r j h :
  existsb is_hole hdr = false →
  rows !! i = Some r →
  hdr !! j = Some h →
  (∀ j' h', j < j' → hdr !! j' = Some h' → js_String h' ≠ js_String h) →
  ∃ row,
    rawData (next (handleFileChange (Some f) (Decoded (hdr :: rows)) s)) !! i = Some row
    ∧ get_prop row (js_String h) = default JUndef (r !! j).
Proof.
  intros Hdense Hi Hj Hlast.
  exists (fromEntries (imap (λ i h, (js_String h, default JUndef (r !! i))) hdr)).
  split.
  - unfold handleFileChange. cbn [lookup list_lookup drop default].
    rewrite mapM_row_object_dense by done. destruct s. cbn.
    by rewrite drop_0, list_lookup_fmap, Hi.
  - unfold get_prop, fromEntries.
    rewrite (foldl_insert_last _ _ j (js_String h) (default JUndef (r !! j))); [done|..].
    + by rewrite list_lookup_imap, Hj.
    + intros j' kv Hlt Hkv. rewrite list_lookup_imap in Hkv.
      destruct (hdr !! j') as [h'|] eqn:Hh'; [|done].
      inversion Hkv; subst kv. simpl. by eapply Hlast.
Qed.

(** X15.  After a sheet whose header row has no blank cell is read, there is
    one raw row for each data row and every raw row has exactly the header
    names as its keys, however many cells its data row has. *)
Theorem handleFileChange_row_keys f hdr rows s :
  existsb is_hole hdr = false →
  let s' := next (handleFileChange (Some f) (Decoded (hdr :: rows)) s) in
  length (rawData s') = length rows
  ∧ columns s' = Some hdr
  ∧ ∀ row, row ∈ rawData s' → dom row = list_to_set (js_String <$> hdr).
Proof.
  intros Hdense s'. subst s'.
  unfold handleFileChange. cbn [lookup list_lookup drop default].
  rewrite mapM_row_object_dense by done. destruct s. cbn. rewrite drop_0.
  split_and!; [by rewrite length_map | done |].
  intros row (r & -> & _)%list_elem_of_fmap.
  unfold fromEntries. rewrite dom_foldl_insert, dom_empty_L.
  assert ((imap (λ i h, (js_String h, default JUndef (r !! i))) hdr).*1
          = js_String <$> hdr) as ->.
  { apply list_eq. intros k.
    rewrite !list_lookup_fmap, list_lookup_imap. by destruct (hdr !! k). }
  apply set_eq. intros x. rewrite elem_of_union, elem_of_empty. tauto.
Qed.

(** ** Reset, preview and operators *)

(** X16.  [resetState] is idempotent; it gives the initial state exactly
    when no assignment mode, operator or operator list was left behind; and
    [processLeads] right after it finds no rows, so produces no record and
    counts no duplicate. *)
Theorem resetState_characterised s :
  resetState (resetState s) = resetState s
  ∧ (resetState s = initial
     ↔ assignmentMode s = auto ∧ selectedCaller s = "" ∧ callers s = [])
  ∧ ∀ clock,
      parsedLeads (processLeads clock (resetState s)) = []
      ∧ duplicates (processLeads clock (resetState s)) = 0.
Proof.
  split_and!.
  - by destruct s.
  - rewrite resetState_eq. unfold initial. split.
    + by intros [= -> -> ->].
    + by intros (-> & -> & ->).
  - intros clock. rewrite processLeads_parsedLeads, processLeads_duplicates.
    by destruct s.
Qed.


Lemma is_caller_role u : is_caller u = true ↔ get_prop u "role" = JStr "caller".
Proof.
  unfold is_caller. destruct (get_prop u "role") as [|r|n|p]; try done.
  rewrite String.eqb_eq. split; [by intros -> | by intros [= ->]].
Qed.

(** X18.  With the dialog open, the operators kept are exactly the fetched
    users whose role is the string "caller", in the order they were fetched;
    with the dialog closed, the effect changes nothing. *)
Theorem loadCallers_only_callers data s :
  let s' := loadCallers true data s in
  callers s' `sublist_of` data
  ∧ (∀ u, u ∈ callers s' ↔ u ∈ data ∧ get_prop u "role" = JStr "caller")
  ∧ loadCallers false data s = s.
Proof.
  intros s'.
  assert (callers s' = List.filter is_caller data) as -> by (by destruct s).
  split_and!; [| |done].
  - induction data as [|u data IH]; simpl; [done|].
    destruct (is_caller u); [by apply sublist_skip | by apply sublist_cons].
  - intros u. rewrite !list_elem_of_In, filter_In, is_caller_role. tauto.
Qed.

(** ** Keys of ASCII phones *)

Lemma strip_whitespace_ascii_head a r :
  (N_of_ascii a <? 128)%N = true →
  strip_whitespace (String a r) =
  if ws1 (N_of_ascii a) then strip_whitespace r
  else String a (strip_whitespace r).
Proof.
  intros Ha%N.ltb_lt.
  assert ((N_of_ascii a =? 194)%N = false) as H194 by (apply N.eqb_neq; lia).
  assert ((N_of_ascii a =? 225)%N = false) as H225 by (apply N.eqb_neq; lia).
  assert ((N_of_ascii a =? 226)%N = false) as H226 by (apply N.eqb_neq; lia).
  assert ((N_of_ascii a =? 227)%N = false) as H227 by (apply N.eqb_neq; lia).
  assert ((N_of_ascii a =? 239)%N = false) as H239 by (apply N.eqb_neq; lia).
  cbn [strip_whitespace]. destruct (ws1 (N_of_ascii a)); [done|].
  destruct r as [|b [|c r3]]; [done|..]; unfold ws2, ws3;
    rewrite ?H194, ?H225, ?H226, ?H227, ?H239; done.
Qed.

Lemma drop_ascii_whitespace_app s1 s2 :
  drop_ascii_whitespace (s1 +:+ s2)
  = drop_ascii_whitespace s1 +:+ drop_ascii_whitespace s2.
Proof.
  induction s1 as [|a r IH]; [done|].
  change (String a r +:+ s2) with (String a (r +:+ s2)).
  cbn [drop_ascii_whitespace]. rewrite IH. by destruct (ws1 (N_of_ascii a)).
Qed.

Lemma is_ascii_text_app s1 s2 :
  is_ascii_text s1 = true → is_ascii_text s2 = true →
  is_ascii_text (s1 +:+ s2) = true.
Proof.
  intros H1 H2. induction s1 as [|a r IH]; [done|].
  change (String a r +:+ s2) with (String a (r +:+ s2)).
  cbn [is_ascii_text] in *.
  apply andb_true_iff in H1 as [Ha Hr]. rewrite Ha. by apply IH.
Qed.

Lemma strip_whitespace_ascii_text s :
  is_ascii_text s = true → strip_whitespace s = drop_ascii_whitespace s.
Proof.
  induction s as [|a r IH]; [done|]. cbn [is_ascii_text].
  intros [Ha Hr]%andb_true_iff.
  rewrite strip_whitespace_ascii_head by done.
  cbn [drop_ascii_whitespace]. by rewrite IH.
Qed.

(** X19.  On ASCII text, removing whitespace removes exactly the bytes TAB,
    LF, VT, FF, CR and SPACE and keeps every other byte in place; so two
    ASCII phones that differ by a space between two parts have the same
    key. *)
Theorem strip_whitespace_ascii s1 s2 :
  is_ascii_text s1 = true → is_ascii_text s2 = true →
  strip_whitespace s1 = drop_ascii_whitespace s1
  ∧ strip_whitespace (s1 +:+ " " +:+ s2) = strip_whitespace (s1 +:+ s2).
Proof.
  intros H1 H2. split; [by apply strip_whitespace_ascii_text|].
  rewrite !strip_whitespace_ascii_text.
  - by rewrite !drop_ascii_whitespace_app.
  - by apply is_ascii_text_app.
  - apply is_ascii_text_app; [done|]. by apply (is_ascii_text_app " ").
Qed.

End ImportLeads.

(** ** The definitions at work, on integers *)

#[local] Existing Instance IntRuntime.runtime.

Example numeric_cells :
  let m : gmap string string :=
    <["value" := "Budget"]> (<["phone" := "Mobile"]> {["name" := "Code"]}) in
  let row : gmap string jsval :=
    <["Budget" := JStr "4500"]>
      (<["Mobile" := JNum (Some 9876543210%Z)]> {["Code" := JNum (Some 17%Z)]}) in
  let lead := build_lead Z.of_nat m 4 row in
  name lead = Some "17" ∧ phone lead = Some "9876543210"
  ∧ value lead = Some (Some 4500%Z) ∧ id lead = {| id_time := 12; id_index := 4 |}.
Proof. vm_compute. by split_and!. Qed.

Example strip_unicode_whitespace :
  strip_whitespace (String "009" "98 76" +:+ String "194" (String "160" "5")) = "98765".
Proof. reflexivity. Qed.

Lemma validate_blocks_missing_required_witness :
  let s := setStep mapping (setColumnMapping {["name" := "Full Name"]} initial) in
  step s = mapping
  ∧ (columnMapping s !! "name" = None ∨ columnMapping s !! "phone" = None)
  ∧ ∃ missing,
      validate (columnMapping s) = MissingRequired missing
      ∧ missing ≠ []
      ∧ (∀ k, k ∈ missing ↔ (k = "name" ∨ k = "phone") ∧ columnMapping s !! k = None)
      ∧ advance_to_assignment s = s
      ∧ step (advance_to_assignment s) = mapping
      ∧ (is_Some (columnMapping s !! "name") → missing = ["phone"]).
Proof.
  intros s. split; [reflexivity|]. split; [right; reflexivity|].
  apply (validate_blocks_missing_required s); [reflexivity|].
  right. reflexivity.
Defined.

Lemma falsy_cell_skipped_witness :
  let m : gmap string string := {["value" := "Budget"]} in
  let row : gmap string jsval := {["Budget" := JNum (Some 0%Z)]} in
  JNum (Some 0%Z) ∈ [JUndef; JStr ""; JNum num_zero]
  ∧ value (build_lead Z.of_nat m 0 row) = None.
Proof.
  intros m row.
  assert (JNum (Some 0%Z) ∈ [JUndef; JStr ""; JNum num_zero]) as Hcell.
  { rewrite !elem_of_cons. right. right. by left. }
  split; [exact Hcell|].
  destruct (falsy_cell_skipped Z.of_nat m 0 row "Budget" _ Hcell) as (_ & Hvalue & _).
  apply Hvalue; reflexivity.
Defined.

(** C6 as stated fails twice.  On a workbook whose first sheet has no rows,
    decoding returns the empty array, nothing is thrown or shown, and the
    step is mapping, with no column set.  On bytes that are no spreadsheet,
    so that decoding throws, the step stays upload but no error is shown. *)
Lemma handleFileChange_no_parse_error :
  let f := {| file_name := "empty.xlsx"; file_bytes := "" |} in
  let g := {| file_name := "notes.txt"; file_bytes := "not a workbook" |} in
  let h := handleFileChange (Some f) (Decoded []) initial in
  let h' := handleFileChange (Some g) DecodeThrows initial in
  (thrown h = false ∧ shown h = []
   ∧ step (next h) = mapping ∧ step (next h) ≠ upload
   ∧ columns (next h) = None ∧ rawData (next h) = [])
  ∧ (thrown h' = true ∧ step (next h') = upload ∧ shown h' = []).
Proof. intros f g h h'. by split_and!. Qed.

Lemma processLeads_required_unmapped_witness :
  let s := setRawData [ {["Full Name" := JStr "Asha"]} ]
             (setColumnMapping {["name" := "Full Name"]} initial) in
  (columnMapping s !! "name" = None ∨ columnMapping s !! "phone" = None)
  ∧ parsedLeads (processLeads Z.of_nat s) = []
  ∧ duplicates (processLeads Z.of_nat s) = 0
  ∧ step (processLeads Z.of_nat s) = preview.
Proof.
  intros s.
  assert (columnMapping s !! "name" = None ∨ columnMapping s !! "phone" = None) as Hm
    by (right; reflexivity).
  split; [exact Hm|]. exact (processLeads_required_unmapped Z.of_nat s Hm).
Defined.

Lemma build_lead_entries_order_witness :
  let entries := [("phone", "Mobile"); ("name", "Full Name")] in
  let row : gmap string jsval :=
    <["Mobile" := JNum (Some 5550100%Z)]> {["Full Name" := JStr "Asha"]} in
  NoDup entries.*1
  ∧ apply_entries row (new_lead Z.of_nat 0) entries
    = build_lead Z.of_nat (list_to_map entries) 0 row.
Proof.
  intros entries row.
  assert (NoDup entries.*1) as Hnd.
  { apply NoDup_cons. split; [|apply NoDup_singleton].
    intros Hin%list_elem_of_singleton. discriminate. }
  split; [exact Hnd|]. exact (build_lead_entries_order Z.of_nat 0 row entries Hnd).
Defined.

Lemma enum_cell_normalised_witness :
  let m : gmap string string := {["stage" := "Stage"]} in
  let row : gmap string jsval := {["Stage" := JStr "Qualified"]} in
  js_truthy (get_prop row "Stage") = true
  ∧ (toLowerCase (js_String (get_prop row "Stage")) ∉ Object_prototype_keys)
  ∧ stage (build_lead Z.of_nat m 0 row) = JStr "qualified".
Proof.
  intros m row.
  assert (toLowerCase (js_String (get_prop row "Stage")) ∉ Object_prototype_keys)
    as Hp by (apply (bool_decide_eq_false_1 _); reflexivity).
  split; [reflexivity|]. split; [exact Hp|].
  destruct (enum_cell_normalised Z.of_nat m 0 row "Stage" eq_refl Hp)
    as (_ & Hstage & _).
  exact (Hstage eq_refl).
Defined.

Lemma unmapped_column_ignored_witness :
  let m : gmap string string := {["name" := "Full Name"]} in
  let row : gmap string jsval := {["Full Name" := JStr "Asha"]} in
  (∀ k, m !! k ≠ Some "Remarks")
  ∧ build_lead Z.of_nat m 0 (<["Remarks" := JStr "call back"]> row)
    = build_lead Z.of_nat m 0 row.
Proof.
  intros m row.
  assert (∀ k, m !! k ≠ Some "Remarks") as Hunused.
  { intros k Hk. apply lookup_singleton_Some in Hk as [_ Hk]. discriminate. }
  split; [exact Hunused|].
  exact (proj1 (unmapped_column_ignored Z.of_nat m 0 row "Remarks"
                  (JStr "call back") Hunused)).
Defined.

Lemma handleFileChange_cell_witness :
  let f := {| file_name := "leads.xlsx"; file_bytes := "" |} in
  let hdr := [JStr "Full Name"; JStr "Mobile"] in
  let rows := [[JStr "Asha"]] in
  existsb is_hole hdr = false
  ∧ rows !! 0 = Some [JStr "Asha"]
  ∧ hdr !! 1 = Some (JStr "Mobile")
  ∧ ∃ row,
      rawData (next (handleFileChange (Some f) (Decoded (hdr :: rows)) initial)) !! 0
      = Some row
      ∧ get_prop row "Mobile" = JUndef.
Proof.
  intros f hdr rows. split; [reflexivity|]. split; [reflexivity|].
  split; [reflexivity|].
  apply (handleFileChange_cell f hdr rows initial 0 [JStr "Asha"] 1 (JStr "Mobile"));
    [reflexivity | reflexivity | reflexivity |].
  intros j' h' Hlt Hj'. destruct j' as [|[|j']]; [lia | lia | done].
Defined.

Lemma strip_whitespace_ascii_witness :
  is_ascii_text "98765" = true ∧ is_ascii_text "43210" = true
  ∧ strip_whitespace "98765" = drop_ascii_whitespace "98765"
  ∧ strip_whitespace ("98765" +:+ " " +:+ "43210")
    = strip_whitespace ("98765" +:+ "43210").
Proof.
  split; [reflexivity|]. split; [reflexivity|].
  exact (strip_whitespace_ascii "98765" "43210" eq_refl eq_refl).
Defined.

Lemma handleFileChange_row_keys_witness :
  let f := {| file_name := "leads.xlsx"; file_bytes := "" |} in
  let hdr := [JStr "Full Name"; JStr "Mobile"] in
  let rows := [[JStr "Asha"]; [JStr "Ravi"; JNum (Some 5550100%Z); JStr "Pune"]] in
  let s' := next (handleFileChange (Some f) (Decoded (hdr :: rows)) initial) in
  existsb is_hole hdr = false
  ∧ length (rawData s') = 2
  ∧ columns s' = Some hdr
  ∧ ∀ row, row ∈ rawData s' → dom row = list_to_set (js_String <$> hdr).
Proof.
  intros f hdr rows s'. split; [reflexivity|].
  exact (handleFileChange_row_keys f hdr rows initial eq_refl).
Defined.

(** A header row with a blank cell before a named one: with a data row the
    raw rows cannot be built, the handler throws after [setColumns], and
    the step stays upload. *)
Example sparse_header_throws :
  let f := {| file_name := "leads.xlsx"; file_bytes := "" |} in
  let hdr := [JStr "Full Name"; JUndef; JStr "Mobile"] in
  let h := handleFileChange (Some f) (Decoded [hdr; [JStr "Asha"]]) initial in
  let h0 := handleFileChange (Some f) (Decoded [hdr]) initial in
  (thrown h = true ∧ step (next h) = upload ∧ rawData (next h) = []
   ∧ columns (next h) = Some hdr ∧ isProcessing (next h) = true)
  ∧ (thrown h0 = false ∧ step (next h0) = mapping ∧ rawData (next h0) = []).
Proof. intros f hdr h h0. by split_and!. Qed.
